(** * The agenda view of react-native-calendars: a shallow embedding

    Source: [src/agenda/index.js] (class [AgendaView]).

    The component is embedded in three layers:
    - [Layout]: the numbers of [render] (heights and the interpolation
      configurations handed to the host framework's animated value);
    - [JS]: the fragment of JavaScript values, objects and heap that
      [generateMarkings] works on;
    - [AgendaView]: the component instance (props, state, instance fields),
      the host's timer queue, and every method of the class as a
      computation in a state-and-exception monad.

    Numbers of the layout are rationals ([Q]); time is a count of
    milliseconds ([N]). *)

From Stdlib Require Import ZArith QArith Qminmax Lqa Lia.
From stdpp Require Import base gmap strings list fin_maps pretty.

(** * Layout arithmetic of [render] *)

Module Layout.

Local Open Scope Q_scope.

(** [const HEADER_HEIGHT = 94; const KNOB_HEIGHT = 24;] *)
Definition HEADER_HEIGHT : Q := 94.
Definition KNOB_HEIGHT : Q := 24.

(** [calendarOffset() { return 90 - (this.viewHeight / 2); }] *)
Definition calendarOffset (viewHeight : Q) : Q := 90 - viewHeight / 2.

(** [initialScrollPadPosition() { return Math.max(0, this.viewHeight - HEADER_HEIGHT); }] *)
Definition initialScrollPadPosition (viewHeight : Q) : Q :=
  Qmax 0 (viewHeight - HEADER_HEIGHT).

(** [const agendaHeight = Math.max(0, this.viewHeight - HEADER_HEIGHT);] in [render]. *)
Definition agendaHeight (viewHeight : Q) : Q :=
  Qmax 0 (viewHeight - HEADER_HEIGHT).

(** The [extrapolate] option of an interpolation. *)
Inductive Extrapolate := Extend | Clamp | Identity.

(** The object literal passed to [scrollY.interpolate]. *)
Record InterpolationConfig := {
  inputRange : Q * Q;
  outputRange : Q * Q;
  extrapolate : Extrapolate;
}.

(** The four interpolations that [render] builds, in source order. *)
Definition weekdaysOpacity (viewHeight : Q) : InterpolationConfig :=
  let agendaHeight := agendaHeight viewHeight in
  {| inputRange := (agendaHeight - HEADER_HEIGHT, agendaHeight);
     outputRange := (0, 1);
     extrapolate := Clamp |}.

Definition weekdaysTranslateY (viewHeight : Q) : InterpolationConfig :=
  let agendaHeight := agendaHeight viewHeight in
  {| inputRange := (Qmax 0 (agendaHeight - HEADER_HEIGHT), agendaHeight);
     outputRange := (- HEADER_HEIGHT, 0);
     extrapolate := Clamp |}.

Definition headerTranslate (viewHeight : Q) : InterpolationConfig :=
  let agendaHeight := agendaHeight viewHeight in
  {| inputRange := (0, agendaHeight);
     outputRange := (agendaHeight, 0);
     extrapolate := Clamp |}.

Definition contentTranslate (viewHeight : Q) : InterpolationConfig :=
  let agendaHeight := agendaHeight viewHeight in
  {| inputRange := (0, agendaHeight);
     outputRange := (0, agendaHeight / 2);
     extrapolate := Clamp |}.

(** [<View style={{height: agendaHeight + KNOB_HEIGHT}} .../>]: the content
    of the scroll pad. *)
Definition scrollPadContentHeight (viewHeight : Q) : Q :=
  agendaHeight viewHeight + KNOB_HEIGHT.

(** Modelled from the spec: the interpolation itself is the host framework's
    ("host-framework interpolation", a "clamped linear interpolation"); it is
    not part of this repository.  For a two-point range it extrapolates the
    input as the configuration says, returns the output bound when the
    output or the input range is a single point, and is linear in between. *)
Definition interpolate (c : InterpolationConfig) (input : Q) : Q :=
  let '(inputMin, inputMax) := inputRange c in
  let '(outputMin, outputMax) := outputRange c in
  let below := if Qlt_le_dec input inputMin then true else false in
  let above := if Qlt_le_dec inputMax input then true else false in
  match extrapolate c, below || above with
  | Identity, true => input
  | ex, _ =>
      let result :=
        match ex with
        | Clamp => if below then inputMin else if above then inputMax else input
        | _ => input
        end in
      if Qeq_bool outputMin outputMax then outputMin
      else if Qeq_bool inputMin inputMax
           then (if Qle_bool input inputMin then outputMin else outputMax)
      else (result - inputMin) / (inputMax - inputMin) * (outputMax - outputMin) + outputMin
  end.

(** The clamp of [x] to the interval from [lo] to [hi]. *)
Definition clamp (x lo hi : Q) : Q := Qmax lo (Qmin x hi).

(** Both bounds of the input range of an interpolation are at least zero. *)
Definition nonneg_range (c : InterpolationConfig) : Prop :=
  0 <= (inputRange c).1 ∧ 0 <= (inputRange c).2.

End Layout.

(** * The fragment of JavaScript that [generateMarkings] runs on *)

Module JS.

Definition loc := positive.

(** Values.  Objects and arrays are references into the heap, so that two
    variables can name one object. *)
Inductive value :=
| VUndefined
| VNull
| VBool (b : bool)
| VNum (n : Z)
| VStr (s : string)
| VRef (l : loc).

(** A heap cell: a plain object (its own enumerable properties) or an array. *)
Inductive object :=
| Obj (fields : gmap string value)
| Arr (elems : list value).

Abbreviation heap := (gmap loc object).

#[global] Instance value_eq_dec : EqDecision value.
Proof. solve_decision. Defined.

(** ToBoolean, as [!x], [x && y] and [x || y] use it. *)
Definition truthy (v : value) : bool :=
  match v with
  | VUndefined | VNull => false
  | VBool b => b
  | VNum n => negb (n =? 0)%Z
  | VStr s => negb (String.eqb s "")
  | VRef _ => true
  end.

(** The index properties ["0"], ["1"], ... of an array or of a string. *)
Definition index_props (vs : list value) : gmap string value :=
  list_to_map (imap (λ i v, (pretty i, v)) vs).

Definition chars (s : string) : list value :=
  (λ a, VStr (String a EmptyString)) <$> String.list_ascii_of_string s.

(** The own enumerable properties of a value: what [Object.keys(v)] lists
    and what the spread [{...v}] copies. *)
Definition own_props (h : heap) (v : value) : gmap string value :=
  match v with
  | VRef l =>
      match h !! l with
      | Some (Obj fields) => fields
      | Some (Arr elems) => index_props elems
      | None => ∅
      end
  | VStr s => index_props (chars s)
  | _ => ∅
  end.

(** [Object.keys(v)]. *)
Definition Object_keys (h : heap) (v : value) : list string :=
  (map_to_list (own_props h v)).*1.

(** Property read [v[k]] on a value that is not [undefined] or [null]
    (every read in [generateMarkings] is on such a value); a missing
    property reads as [undefined]. *)
Definition get (h : heap) (v : value) (k : string) : value :=
  match v with
  | VRef l =>
      match h !! l with
      | Some (Obj fields) => default VUndefined (fields !! k)
      | Some (Arr elems) =>
          if String.eqb k "length" then VNum (Z.of_nat (length elems))
          else default VUndefined (index_props elems !! k)
      | None => VUndefined
      end
  | VStr s =>
      if String.eqb k "length" then VNum (Z.of_nat (String.length s))
      else default VUndefined (index_props (chars s) !! k)
  | _ => VUndefined
  end.

(** An object literal: a new cell at an address the heap does not use. *)
Definition alloc (o : object) (h : heap) : loc * heap :=
  let l := fresh (dom h) in (l, <[l := o]> h).

(** Property write [l[k] = v] on a plain object. *)
Definition set (l : loc) (k : string) (v : value) (h : heap) : heap :=
  match h !! l with
  | Some (Obj fields) => <[l := Obj (<[k := v]> fields)]> h
  | _ => h
  end.

(** ** Notions used to state the properties of [generateMarkings] *)

(** The list that a value refers to, when it refers to an array. *)
Definition item_list (h : heap) (v : value) : option (list value) :=
  match v with
  | VRef l =>
      match h !! l with
      | Some (Arr elems) => Some elems
      | _ => None
      end
  | _ => None
  end.

(** [undefined] or [null]: a date whose items are not loaded. *)
Definition missing (v : value) : bool :=
  match v with
  | VUndefined | VNull => true
  | _ => false
  end.

(** An items map as the component documents it: a plain object whose
    values are lists or missing. *)
Definition items_typed (h : heap) (items : option loc) : Prop :=
  match items with
  | None => True
  | Some l =>
      ∃ fields, h !! l = Some (Obj fields) ∧
        map_Forall (λ _ v, is_Some (item_list h v) ∨ missing v = true) fields
  end.

(** The value of [items] at [k] is a non-empty list. *)
Definition has_items (h : heap) (items : value) (k : string) : bool :=
  match item_list h (get h items k) with
  | Some (_ :: _) => true
  | _ => false
  end.

(** The entry of [m] at [k] carries the boolean field [f] set to true. *)
Definition has_flag (h : heap) (m : value) (k f : string) : bool :=
  bool_decide (get h (get h m k) f = VBool true).

End JS.

(** * The component *)

Module AgendaView.

Import Layout.
Export JS.

(** ** What the component imports

    The date type of the xdate library and the helpers of [../interface]
    are used by the component but defined elsewhere; the component is
    embedded over any implementation of them. *)
Class DateLib := {
  (** an [XDate] object (read only here: [clone] is a copy of the value) *)
  XDate : Type;
  (** the plain day object that [xdateToData] builds and callbacks receive *)
  DateData : Type;
  (** a defined value passed where a date is expected *)
  DateArg : Type;
  (** [XDate(true)] when the clock reads the given millisecond *)
  XDate_now : N → XDate;
  (** [d.toString('yyyy-MM-dd')] *)
  XDate_toString : XDate → string;
  (** [parseDate(d)]; [None] is [undefined], as argument and as result *)
  parseDate : option DateArg → option XDate;
  (** [xdateToData(d)] *)
  xdateToData : XDate → DateData;
  (** an [XDate] passed as an argument *)
  ofXDate : XDate → DateArg;
}.

Section Component.

Context `{DateLib}.

(** ** Props, state and instance fields *)

(** The props that the methods read.  [items] and [markedDates] are objects
    ([PropTypes.object]): [None] stands for a prop that is [undefined] or
    [null].  A callback prop is [true] when a function is supplied. *)
Record Props := {
  items : option loc;
  markedDates : option loc;
  selected : option DateArg;
  loadItemsForMonth : bool;
  onCalendarToggled : bool;
  onDayPress : bool;
}.

(** [this.state] (the animated value [scrollY] belongs to the host). *)
Record State := {
  calendarIsReady : bool;
  calendarScrollable : bool;
  firstResevationLoad : bool;
  selectedDay : XDate;
  topDay : XDate;
}.

(** Calls that leave the component: the callback props and the methods of
    the two child refs. *)
Inductive Effect :=
| LoadItemsForMonth (month : option DateData)
| OnCalendarToggled (opened : bool)
| OnDayPress (day : DateData)
| ScrollPadScrollTo (y : Q) (animated : bool)
| CalendarScrollToDay (day : XDate) (offset : Q) (animated : bool)
| ForceUpdate.

(** The arrow functions handed to [setTimeout], with what they capture. *)
Inductive Callback :=
| SetCalendarIsReady
| LoadVisibleMonth (months : list DateData)
| ScrollCalendarToSelected
| NotifyToggled (opened : bool).

Record Timer := {
  timerId : nat;
  due : N;
  callback : Callback;
}.

(** The instance together with the part of the host it acts on: the heap,
    the clock, the pending timers and the log of outgoing calls (each with
    the time of the call, oldest first). *)
Record World := {
  props : Props;
  state : State;
  viewHeight : Q;
  viewWidth : Q;
  scrollTimeout : option nat;
  _isMounted : bool;
  store : heap;
  clock : N;
  nextTimerId : nat;
  timers : list Timer;
  trace : list (N * Effect);
}.

Definition with_props (p : Props) (w : World) : World :=
  {| props := p; state := state w; viewHeight := viewHeight w;
     viewWidth := viewWidth w; scrollTimeout := scrollTimeout w;
     _isMounted := _isMounted w; store := store w; clock := clock w;
     nextTimerId := nextTimerId w; timers := timers w; trace := trace w |}.

Definition with_state (s : State) (w : World) : World :=
  {| props := props w; state := s; viewHeight := viewHeight w;
     viewWidth := viewWidth w; scrollTimeout := scrollTimeout w;
     _isMounted := _isMounted w; store := store w; clock := clock w;
     nextTimerId := nextTimerId w; timers := timers w; trace := trace w |}.

Definition with_view (height width : Q) (w : World) : World :=
  {| props := props w; state := state w; viewHeight := height;
     viewWidth := width; scrollTimeout := scrollTimeout w;
     _isMounted := _isMounted w; store := store w; clock := clock w;
     nextTimerId := nextTimerId w; timers := timers w; trace := trace w |}.

Definition with_scrollTimeout (t : option nat) (w : World) : World :=
  {| props := props w; state := state w; viewHeight := viewHeight w;
     viewWidth := viewWidth w; scrollTimeout := t;
     _isMounted := _isMounted w; store := store w; clock := clock w;
     nextTimerId := nextTimerId w; timers := timers w; trace := trace w |}.

Definition with_isMounted (b : bool) (w : World) : World :=
  {| props := props w; state := state w; viewHeight := viewHeight w;
     viewWidth := viewWidth w; scrollTimeout := scrollTimeout w;
     _isMounted := b; store := store w; clock := clock w;
     nextTimerId := nextTimerId w; timers := timers w; trace := trace w |}.

Definition with_store (h : heap) (w : World) : World :=
  {| props := props w; state := state w; viewHeight := viewHeight w;
     viewWidth := viewWidth w; scrollTimeout := scrollTimeout w;
     _isMounted := _isMounted w; store := h; clock := clock w;
     nextTimerId := nextTimerId w; timers := timers w; trace := trace w |}.

Definition with_clock (t : N) (w : World) : World :=
  {| props := props w; state := state w; viewHeight := viewHeight w;
     viewWidth := viewWidth w; scrollTimeout := scrollTimeout w;
     _isMounted := _isMounted w; store := store w; clock := t;
     nextTimerId := nextTimerId w; timers := timers w; trace := trace w |}.

Definition with_timers (next : nat) (ts : list Timer) (w : World) : World :=
  {| props := props w; state := state w; viewHeight := viewHeight w;
     viewWidth := viewWidth w; scrollTimeout := scrollTimeout w;
     _isMounted := _isMounted w; store := store w; clock := clock w;
     nextTimerId := next; timers := ts; trace := trace w |}.

Definition with_trace (tr : list (N * Effect)) (w : World) : World :=
  {| props := props w; state := state w; viewHeight := viewHeight w;
     viewWidth := viewWidth w; scrollTimeout := scrollTimeout w;
     _isMounted := _isMounted w; store := store w; clock := clock w;
     nextTimerId := nextTimerId w; timers := timers w; trace := tr |}.

(** ** Computations: state passing with exceptions

    A method runs on the world and either returns or throws; what it did
    before throwing stays done. *)
Inductive Error := TypeError.

Inductive Outcome (A : Type) :=
| Returned (a : A)
| Thrown (e : Error).
#[global] Arguments Returned {A} a.
#[global] Arguments Thrown {A} e.

Definition M (A : Type) : Type := World → Outcome A * World.

#[global] Instance M_ret : MRet M := λ A a w, (Returned a, w).

#[global] Instance M_bind : MBind M := λ A B f m w,
  match m w with
  | (Returned a, w') => f a w'
  | (Thrown e, w') => (Thrown e, w')
  end.

Definition throw {A} (e : Error) : M A := λ w, (Thrown e, w).
Definition read {A} (f : World → A) : M A := λ w, (Returned (f w), w).
Definition update (f : World → World) : M unit := λ w, (Returned tt, f w).
Definition when (b : bool) (m : M unit) : M unit := if b then m else mret tt.

(** A call that leaves the component, logged with the time it happens. *)
Definition emit (e : Effect) : M unit :=
  update (λ w, with_trace (trace w ++ [(clock w, e)]) w).

(** A method call on a value that may be [undefined]. *)
Definition defined {A} (o : option A) : M A :=
  match o with
  | Some a => mret a
  | None => throw TypeError
  end.

(** [this.setState(partial)], applied at once: no method reads the state
    after it has set it. *)
Definition setState (f : State → State) : M unit :=
  update (λ w, with_state (f (state w)) w).

Definition set_calendarIsReady (b : bool) (s : State) : State :=
  {| calendarIsReady := b; calendarScrollable := calendarScrollable s;
     firstResevationLoad := firstResevationLoad s;
     selectedDay := selectedDay s; topDay := topDay s |}.

Definition set_calendarScrollable (b : bool) (s : State) : State :=
  {| calendarIsReady := calendarIsReady s; calendarScrollable := b;
     firstResevationLoad := firstResevationLoad s;
     selectedDay := selectedDay s; topDay := topDay s |}.

Definition set_firstResevationLoad (b : bool) (s : State) : State :=
  {| calendarIsReady := calendarIsReady s;
     calendarScrollable := calendarScrollable s;
     firstResevationLoad := b;
     selectedDay := selectedDay s; topDay := topDay s |}.

Definition set_selectedDay (d : XDate) (s : State) : State :=
  {| calendarIsReady := calendarIsReady s;
     calendarScrollable := calendarScrollable s;
     firstResevationLoad := firstResevationLoad s;
     selectedDay := d; topDay := topDay s |}.

(** ** Timers of the host *)

(** [setTimeout(cb, delay)]: a new pending timer, due [delay] ms from now;
    the result is its id, which no other timer ever had. *)
Definition setTimeout (cb : Callback) (delay : N) : M nat := λ w,
  let id := nextTimerId w in
  (Returned id,
   with_timers (S id)
     (timers w ++ [{| timerId := id; due := (clock w + delay)%N; callback := cb |}]) w).

(** [clearTimeout(id)]: the pending timer of that id, if there is one, is
    dropped; [undefined] and the id of a timer that has run do nothing. *)
Definition clearTimeout (id : option nat) : M unit :=
  match id with
  | None => mret tt
  | Some i =>
      update (λ w, with_timers (nextTimerId w)
                     (filter (λ t, timerId t ≠ i) (timers w)) w)
  end.

(** ** The methods of the class, in source order *)

(** [constructor(props)], run when the window has the given size and the
    heap is [h].  The state literal evaluates
    [parseDate(this.props.selected) || XDate(true)] once for [selectedDay]
    and once more for [topDay]: the clock reads [t] at the first
    [XDate(true)] and [t + dt] at the second, [dt] being the time that
    passed in between.  [_isMounted] is not assigned here, so it reads as
    false until [componentWillMount]. *)
Definition constructor (p : Props) (windowHeight windowWidth : Q)
    (h : heap) (t dt : N) : World :=
  {| props := p;
     state :=
       {| calendarIsReady := false;
          calendarScrollable := false;
          firstResevationLoad := false;
          selectedDay := default (XDate_now t) (parseDate (selected p));
          topDay := default (XDate_now (t + dt)) (parseDate (selected p)) |};
     viewHeight := windowHeight;
     viewWidth := windowWidth;
     scrollTimeout := None;
     _isMounted := false;
     store := h;
     clock := (t + dt)%N;
     nextTimerId := 0;
     timers := [];
     trace := [] |}.

Definition calendarOffset : M Q :=
  read (λ w, Layout.calendarOffset (viewHeight w)).

Definition initialScrollPadPosition : M Q :=
  read (λ w, Layout.initialScrollPadPosition (viewHeight w)).

Definition setScrollPadPosition (y : Q) (animated : bool) : M unit :=
  emit (ScrollPadScrollTo y animated).

Definition onScrollPadLayout : M unit :=
  y ← initialScrollPadPosition;
  setScrollPadPosition y false;;
  setTimeout SetCalendarIsReady 0;;
  mret tt.

Definition onLayout (height width : Q) : M unit :=
  update (with_view height width);;
  emit ForceUpdate.

Definition onVisibleMonthsChange (months : list DateData) : M unit :=
  w ← read id;
  when (bool_decide (is_Some (items (props w)))
        && negb (firstResevationLoad (state w)))
    (clearTimeout (scrollTimeout w);;
     t ← setTimeout (LoadVisibleMonth months) 200;
     update (with_scrollTimeout (Some t))).

(** [!props.items || !Object.keys(props.items).length] *)
Definition no_items (h : heap) (p : Props) : bool :=
  match items p with
  | None => true
  | Some l => bool_decide (length (Object_keys h (VRef l)) = 0%nat)
  end.

Definition loadReservations (p : Props) : M unit :=
  w ← read id;
  when (no_items (store w) p && negb (firstResevationLoad (state w)))
    (setState (set_firstResevationLoad true);;
     w ← read id;
     when (loadItemsForMonth (props w))
       (emit (LoadItemsForMonth (Some (xdateToData (selectedDay (state w))))))).

Definition componentWillMount : M unit :=
  update (with_isMounted true);;
  p ← read props;
  loadReservations p.

Definition componentWillUnmount : M unit :=
  update (with_isMounted false).

Definition componentDidUpdate (prevProps : Props) : M unit :=
  p ← read props;
  if bool_decide (items prevProps ≠ items p)
  then setState (set_firstResevationLoad false)
  else loadReservations p.

Definition enableCalendarScrolling : M unit :=
  setState (set_calendarScrollable true);;
  setTimeout ScrollCalendarToSelected 500;;
  mret tt.

Definition expandCalendar : M unit :=
  enableCalendarScrolling;;
  setScrollPadPosition 0 true.

Definition chooseDay (d : option DateArg) : M unit :=
  let day := parseDate d in
  scrollable ← read (λ w, calendarScrollable (state w));
  when scrollable (setTimeout (NotifyToggled false) 1000;; mret tt);;
  day ← defined day;
  setState (λ s, set_selectedDay day (set_calendarScrollable false s));;
  y ← initialScrollPadPosition;
  setScrollPadPosition y false;;
  p ← read props;
  when (loadItemsForMonth p) (emit (LoadItemsForMonth (Some (xdateToData day))));;
  p ← read props;
  when (onDayPress p) (emit (OnDayPress (xdateToData day))).

Definition compactCalendar : M unit :=
  d ← read (λ w, selectedDay (state w));
  chooseDay (Some (ofXDate d)).

Definition _chooseDayFromCalendar (d : option DateArg) : M unit :=
  chooseDay d.

(** The bodies of the deferred arrow functions. *)
Definition run_callback (cb : Callback) : M unit :=
  match cb with
  | SetCalendarIsReady => setState (set_calendarIsReady true)
  | LoadVisibleMonth months =>
      w ← read id;
      when (loadItemsForMonth (props w) && _isMounted w)
        (emit (LoadItemsForMonth (head months)))
  | ScrollCalendarToSelected =>
      d ← read (λ w, selectedDay (state w));
      emit (CalendarScrollToDay d 0 false);;
      setTimeout (NotifyToggled true) 500;;
      mret tt
  | NotifyToggled opened =>
      p ← read props;
      when (onCalendarToggled p) (emit (OnCalendarToggled opened))
  end.

(** [generateMarkings()], on the heap: the result is a reference to the
    new object.  The empty object of [x || {}] and the literal
    [{selected: true}] are spread and dropped at once; they get no cell. *)
Definition of_prop (o : option loc) : value :=
  match o with
  | Some l => VRef l
  | None => VUndefined
  end.

Definition mark_key (items : value) (markings : loc) (h : heap) (key : string) : heap :=
  if truthy (JS.get h items key) && truthy (JS.get h (JS.get h items key) "length")
  then let '(o, h) := alloc (Obj {[ "marked" := VBool true ]}) h in
       JS.set markings key (VRef o) h
  else h.

Definition generateMarkings (p : Props) (selectedDay : XDate) (h : heap) : value * heap :=
  let '(markings, h) :=
    match markedDates p with
    | Some l => (VRef l, h)
    | None =>
        let '(m, h) := alloc (Obj ∅) h in
        (VRef m, foldl (mark_key (of_prop (items p)) m) h
                   (Object_keys h (of_prop (items p))))
    end in
  let key := XDate_toString selectedDay in
  let copied := own_props h markings in
  let entry := JS.get h markings key in
  let '(e, h) :=
    alloc (Obj (<["selected" := VBool true]>
                  (if truthy entry then own_props h entry else ∅))) h in
  let '(r, h) := alloc (Obj (<[key := VRef e]> copied)) h in
  (VRef r, h).

(** The loop of [generateMarkings] seen from outside, once the keys [done]
    have been visited: the heap [h0] it started from is intact, and the new
    object [m] has an entry, a new [{marked: true}], exactly at the visited
    keys where [items] has a non-empty list. *)
Definition marks_inv (h0 : heap) (items : value) (m : loc)
    (done : list string) (h : heap) : Prop :=
  h0 ⊆ h ∧
  ∃ marks, h !! m = Some (Obj marks) ∧
    ∀ k, match marks !! k with
         | Some v =>
             k ∈ done ∧ has_items h0 items k = true ∧
             ∃ o, v = VRef o ∧ o ≠ m ∧
                  h !! o = Some (Obj {[ "marked" := VBool true ]})
         | None => k ∈ done → has_items h0 items k = false
         end.

(** What [render] computes from the instance. *)
Definition shouldAllowDragging (s : State) : bool :=
  negb (calendarScrollable s).

Definition scrollPadPosition (s : State) : Q :=
  if shouldAllowDragging s then HEADER_HEIGHT else 0.

Record Rendered := {
  r_weekdaysOpacity : InterpolationConfig;
  r_weekdaysTranslateY : InterpolationConfig;
  r_headerTranslate : InterpolationConfig;
  r_contentTranslate : InterpolationConfig;
  r_headerBottom : Q;
  r_headerCollapsed : bool;
  r_scrollPadTop : Q;
  r_scrollPadContentHeight : Q;
  r_current : XDate;
  r_markedDates : value;
  r_calendarScrollable : bool;
}.

Definition render : M Rendered := λ w,
  let markings := generateMarkings (props w) (selectedDay (state w)) (store w) in
  (Returned
     {| r_weekdaysOpacity := weekdaysOpacity (viewHeight w);
        r_weekdaysTranslateY := weekdaysTranslateY (viewHeight w);
        r_headerTranslate := headerTranslate (viewHeight w);
        r_contentTranslate := contentTranslate (viewHeight w);
        r_headerBottom := agendaHeight (viewHeight w);
        r_headerCollapsed := negb (calendarIsReady (state w));
        r_scrollPadTop := scrollPadPosition (state w);
        r_scrollPadContentHeight := scrollPadContentHeight (viewHeight w);
        r_current := selectedDay (state w);
        r_markedDates := markings.1;
        r_calendarScrollable := calendarScrollable (state w) |},
   with_store markings.2 w).

(** The [onLayout] handler that [render] gives to the calendar list. *)
Definition onCalendarLayout : M unit :=
  d ← read (λ w, selectedDay (state w));
  o ← calendarOffset;
  emit (CalendarScrollToDay d o false).

(** ** The host: time and the event loop *)

(** The pending timer that runs next: the earliest due, and among equals
    the one set first. *)
Fixpoint next_due (ts : list Timer) : option Timer :=
  match ts with
  | [] => None
  | t :: ts =>
      match next_due ts with
      | Some u => if (due u <? due t)%N then Some u else Some t
      | None => Some t
      end
  end.

(** The host runs the next timer once it is due (never before). *)
Definition fireTimer : M unit :=
  w ← read id;
  match next_due (timers w) with
  | Some t =>
      when (due t <=? clock w)%N
        (clearTimeout (Some (timerId t));; run_callback (callback t))
  | None => mret tt
  end.

Definition elapse (ms : N) : M unit :=
  update (λ w, with_clock (clock w + ms)%N w).

(** Everything that can happen to a constructed instance. *)
Inductive Action :=
| ComponentWillMount
| ComponentWillUnmount
| ReceiveProps (p : Props)
| ComponentDidUpdate (prevProps : Props)
| Render
| OnLayout (height width : Q)
| OnScrollPadLayout
| OnCalendarLayout
| OnVisibleMonthsChange (months : list DateData)
| ChooseDayFromCalendar (d : option DateArg)
| ExpandCalendar
| CompactCalendar
| Elapse (ms : N)
| FireTimer.

Definition perform (a : Action) : M unit :=
  match a with
  | ComponentWillMount => componentWillMount
  | ComponentWillUnmount => componentWillUnmount
  | ReceiveProps p => update (with_props p)
  | ComponentDidUpdate prevProps => componentDidUpdate prevProps
  | Render => render;; mret tt
  | OnLayout height width => onLayout height width
  | OnScrollPadLayout => onScrollPadLayout
  | OnCalendarLayout => onCalendarLayout
  | OnVisibleMonthsChange months => onVisibleMonthsChange months
  | ChooseDayFromCalendar d => _chooseDayFromCalendar d
  | ExpandCalendar => expandCalendar
  | CompactCalendar => compactCalendar
  | Elapse ms => elapse ms
  | FireTimer => fireTimer
  end.

(** The world after a computation, returned or thrown. *)
Definition exec {A} (m : M A) (w : World) : World := (m w).2.

Definition run (script : list Action) (w : World) : World :=
  foldl (λ w a, exec (perform a) w) w script.

(** The worlds an instance can be in. *)
Inductive reachable : World → Prop :=
| reachable_constructor p height width h t dt :
    reachable (constructor p height width h t dt)
| reachable_perform a w :
    reachable w → reachable (exec (perform a) w).

(** ** Notions used to state the properties of the life cycle *)

(** The view state that an action asks for, if it asks for one: expanded
    ([true]) or compact ([false]). *)
Definition toggles (a : Action) : option bool :=
  match a with
  | ExpandCalendar => Some true
  | CompactCalendar => Some false
  | ChooseDayFromCalendar d =>
      match parseDate d with Some _ => Some false | None => None end
  | _ => None
  end.

(** The optional callback props. *)
Inductive OptionalCallback :=
| PropOnDayPress
| PropLoadItemsForMonth
| PropOnCalendarToggled.


(** The effect is a call of the callback. *)
Definition calls (c : OptionalCallback) (e : Effect) : bool :=
  match c, e with
  | PropOnDayPress, OnDayPress _ => true
  | PropLoadItemsForMonth, LoadItemsForMonth _ => true
  | PropOnCalendarToggled, OnCalendarToggled _ => true
  | _, _ => false
  end.




(** The pending timers that will load a month. *)
Definition is_month_load (t : Timer) : bool :=
  match callback t with
  | LoadVisibleMonth _ => true
  | _ => false
  end.

Definition pending_month_loads (w : World) : list Timer :=
  filter (λ t, is_month_load t = true) (timers w).

(** What holds of the timers of every reachable world: ids are distinct and
    below the next id, and a pending month load is the timer that
    [scrollTimeout] names. *)
Definition timers_ok (scrollTimeout : option nat) (next : nat)
    (ts : list Timer) : Prop :=
  NoDup (timerId <$> ts)
  ∧ Forall (λ t, (timerId t < next)%nat) ts
  ∧ Forall (λ t, is_month_load t = true → scrollTimeout = Some (timerId t)) ts.

Definition timers_inv (w : World) : Prop :=
  timers_ok (scrollTimeout w) (nextTimerId w) (timers w).

(** The calls logged between the world [w] and the later world [w']. *)
Definition new_effects (w w' : World) : list (N * Effect) :=
  drop (length (trace w)) (trace w').

End Component.
(** ** An implementation of the date interface

    Calendar days, printed as the xdate format [yyyy-MM-dd] prints them;
    it is what the component is run on in the examples below. *)

Record Ymd := { year : nat; month : nat; day : nat }.

Inductive SampleArg :=
| ArgXDate (d : Ymd)
| ArgData (d : Ymd).

Definition zeroPad (n : nat) : string :=
  if (n <? 10)%nat then "0" +:+ pretty n else pretty n.

Definition format_ymd (d : Ymd) : string :=
  pretty (year d) +:+ "-" +:+ zeroPad (month d) +:+ "-" +:+ zeroPad (day d).

Definition is_leap (y : nat) : bool :=
  ((y mod 4 =? 0) && negb (y mod 100 =? 0) || (y mod 400 =? 0))%nat.

Definition days_in_month (y m : nat) : nat :=
  match m with
  | 2 => if is_leap y then 29 else 28
  | 4 | 6 | 9 | 11 => 30
  | _ => 31
  end.

Definition next_day (d : Ymd) : Ymd :=
  if (day d <? days_in_month (year d) (month d))%nat
  then {| year := year d; month := month d; day := S (day d) |}
  else if (month d <? 12)%nat
       then {| year := year d; month := S (month d); day := 1 |}
       else {| year := S (year d); month := 1; day := 1 |}.

Definition of_epoch_ms (t : N) : Ymd :=
  N.iter (t / 86400000) next_day {| year := 1970; month := 1; day := 1 |}.

Definition sample_parseDate (d : option SampleArg) : option Ymd :=
  match d with
  | None => None
  | Some (ArgXDate d) => Some d
  | Some (ArgData d) => Some d
  end.

#[global] Instance sample_dates : DateLib := {|
  XDate := Ymd;
  DateData := Ymd;
  DateArg := SampleArg;
  XDate_now := of_epoch_ms;
  XDate_toString := format_ymd;
  parseDate := sample_parseDate;
  xdateToData := λ d, d;
  ofXDate := ArgXDate;
|}.

(** ** Sample inputs

    A heap with an items map (one day with an item, one empty day, one day
    not loaded) and a map of custom markings, and props over them. *)

Definition sample_heap : heap :=
  {[ 1%positive := Obj {[ "2026-11-01" := VRef 2%positive;
                          "2026-11-02" := VRef 3%positive;
                          "2026-11-03" := VUndefined ]};
     2%positive := Arr [VStr "meeting"];
     3%positive := Arr [];
     4%positive := Obj {[ "2026-11-02" := VRef 5%positive ]};
     5%positive := Obj {[ "dotColor" := VStr "red" ]} ]}.

Definition sample_props : Props :=
  {| items := Some 1%positive;
     markedDates := None;
     selected := None;
     loadItemsForMonth := true;
     onCalendarToggled := true;
     onDayPress := true |}.

Definition sample_props_marked : Props :=
  {| items := Some 1%positive;
     markedDates := Some 4%positive;
     selected := Some (ArgData {| year := 2026; month := 11; day := 2 |});
     loadItemsForMonth := false;
     onCalendarToggled := false;
     onDayPress := false |}.

Definition sample_world : World :=
  constructor sample_props 800 400 sample_heap 0 0.

(** Props whose items are not supplied yet, and a world on them. *)
Definition sample_props_empty : Props :=
  {| items := None;
     markedDates := None;
     selected := None;
     loadItemsForMonth := true;
     onCalendarToggled := true;
     onDayPress := true |}.

Definition sample_world_empty : World :=
  constructor sample_props_empty 800 400 sample_heap 0 0.

End AgendaView.

(** * The style sheet of the agenda

    Source: [src/agenda/style.js]. *)

Module Style.

(** The value of a style property or of a theme constant. *)
Inductive prim :=
| PUndefined
| PStr (s : string)
| PNum (n : Z).

(** A style object, and a sheet of named styles. *)
Abbreviation style := (gmap string prim).
Abbreviation sheet := (gmap string style).

(** [const STYLESHEET_ID = 'stylesheet.agenda.main';] *)
Definition STYLESHEET_ID : string := "stylesheet.agenda.main".

(** A theme: the appearance constants it sets, and the sheets of overrides
    it carries under the ids of the components. *)
Record Theme := {
  constants : gmap string prim;
  sheets : gmap string sheet;
}.

(** What the module imports: the constants of [../style] and the function
    of [./platform-style], which builds the [knob] and [weekdays] styles
    from the constants in force. *)
Class StyleLib := {
  defaultStyle : gmap string prim;
  platformStyles : gmap string prim → style * style;
}.

(** A property read [o.k]: a missing property reads as [undefined]. *)
Definition read_prop (o : gmap string prim) (k : string) : prim :=
  default PUndefined (o !! k).

(** [styleConstructor(theme = {})]: [None] is an omitted argument.  A spread
    [{...a, ...b}] is the union in which [b] wins; [StyleSheet.create]
    hands the sheet on. *)
Definition styleConstructor `{StyleLib} (theme : option Theme) : sheet :=
  let theme := default {| constants := ∅; sheets := ∅ |} theme in
  let appStyle := constants theme ∪ defaultStyle in
  let '(knob, weekdays) := platformStyles appStyle in
  default ∅ (sheets theme !! STYLESHEET_ID)
  ∪ {[ "knob" := knob;
       "weekdays" := weekdays;
       "header" :=
         {[ "overflow" := PStr "hidden";
            "justifyContent" := PStr "flex-end";
            "position" := PStr "absolute";
            "height" := PStr "100%";
            "width" := PStr "100%" ]};
       "calendar" :=
         {[ "flex" := PNum 1;
            "borderBottomWidth" := PNum 1;
            "borderColor" := read_prop appStyle "separatorColor" ]};
       "weekday" :=
         {[ "width" := PNum 32;
            "textAlign" := PStr "center";
            "color" := read_prop appStyle "textSectionTitleColor";
            "fontSize" := read_prop appStyle "textDayHeaderFontSize";
            "fontFamily" := read_prop appStyle "textDayHeaderFontFamily";
            "fontWeight" := read_prop appStyle "textDayHeaderFontWeight" ]};
       "reservations" :=
         {[ "flex" := PNum 1;
            "marginTop" := PNum 94;
            "backgroundColor" := read_prop appStyle "backgroundColor" ]} ]}.

(** The names of the styles that the literal defines. *)
Definition built_in : list string :=
  ["knob"; "weekdays"; "header"; "calendar"; "weekday"; "reservations"].

(** A style library to run the constructor on. *)
#[global] Instance sample_styles : StyleLib := {|
  defaultStyle :=
    {[ "textSectionTitleColor" := PStr "#b6c1cd";
       "backgroundColor" := PStr "#f2F4f5";
       "textDayHeaderFontSize" := PNum 13 ]};
  platformStyles := λ appStyle,
    ({[ "width" := PNum 38; "height" := PNum 7 ]},
     {[ "position" := PStr "absolute";
        "backgroundColor" := read_prop appStyle "calendarBackground" ]});
|}.

Definition sample_theme : Theme :=
  {| constants := {[ "textSectionTitleColor" := PStr "red" ]};
     sheets :=
       {[ STYLESHEET_ID := {[ "weekday" := {[ "color" := PStr "blue" ]} ]} ]} |}.

(** The same theme without its sheet. *)
Definition sample_theme_plain : Theme :=
  {| constants := {[ "textSectionTitleColor" := PStr "red" ]};
     sheets := ∅ |}.

End Style.

(** * Properties of the layout arithmetic *)

Section LayoutProperties.

Import Layout.
Local Open Scope Q_scope.

Lemma agendaHeight_nonneg (viewHeight : Q) : 0 <= agendaHeight viewHeight.
Proof. unfold agendaHeight. apply Q.le_max_l. Qed.

Ltac split_minmax :=
  repeat match goal with
  | |- context [Qmin ?x ?y] =>
      let H := fresh "Hmin" in
      destruct (Q.min_spec x y) as [[? H] | [? H]];
      generalize dependent (Qmin x y); intros
  | |- context [Qmax ?x ?y] =>
      let H := fresh "Hmax" in
      destruct (Q.max_spec x y) as [[? H] | [? H]];
      generalize dependent (Qmax x y); intros
  end.

Ltac split_tests :=
  repeat match goal with
  | |- context [Qlt_le_dec ?x ?y] => destruct (Qlt_le_dec x y)
  | |- context [Qeq_bool ?x ?y] =>
      let E := fresh "E" in
      destruct (Qeq_bool x y) eqn:E;
      [apply Qeq_bool_iff in E | apply Qeq_bool_neq in E]
  | |- context [Qle_bool ?x ?y] =>
      let E := fresh "E" in
      destruct (Qle_bool x y) eqn:E;
      [apply Qle_bool_iff in E | ]
  end; cbn [orb].

Lemma linear_down (a r : Q) :
  ¬ a == 0 → (r - 0) / (a - 0) * (0 - a) + a == a - r.
Proof. intros. field. lra. Qed.

Lemma div94 (x : Q) : x / 94 == x * (1 # 94).
Proof. reflexivity. Qed.

Lemma linear_unit (lo hi r : Q) :
  hi - lo == 94 → (r - lo) / (hi - lo) * (1 - 0) + 0 == (r - lo) * (1 # 94).
Proof. intros E. rewrite E. field. Qed.

Lemma interpolate_header (a y : Q) :
  0 <= a →
  interpolate {| inputRange := (0, a); outputRange := (a, 0); extrapolate := Clamp |} y
  == a - clamp y 0 a.
Proof.
  intros Ha. unfold interpolate, clamp. cbn [inputRange outputRange extrapolate].
  split_tests; try rewrite linear_down by lra; split_minmax; lra.
Qed.

Lemma interpolate_opacity (a y : Q) :
  interpolate {| inputRange := (a - 94, a); outputRange := (0, 1); extrapolate := Clamp |} y
  == clamp ((y - (a - 94)) / 94) 0 1.
Proof.
  unfold interpolate, clamp. cbn [inputRange outputRange extrapolate].
  split_tests; try lra.
  all: rewrite ?linear_unit by lra; rewrite !div94; split_minmax; lra.
Qed.

(** C4.  The header follows the drag by a clamped linear interpolation of
    the scroll pad's offset [y]: with [agendaHeight = max(0, viewHeight - 94)]
    the header translate is [agendaHeight - clamp(y, 0, agendaHeight)], it is
    [agendaHeight] at [y = 0] and [0] at [y = agendaHeight] and never grows
    with [y]; the opacity of the week-day row is the clamp of
    [(y - (agendaHeight - 94)) / 94] to the unit interval. *)
Theorem drag_to_header_mapping (viewHeight y y' : Q) (Hle : y <= y') :
  let a := agendaHeight viewHeight in
  let header := interpolate (headerTranslate viewHeight) in
  a == Qmax 0 (viewHeight - 94)
  ∧ header y == a - clamp y 0 a
  ∧ header 0 == a
  ∧ header a == 0
  ∧ header y' <= header y
  ∧ interpolate (weekdaysOpacity viewHeight) y
    == clamp ((y - (a - 94)) / 94) 0 1.
Proof.
  intros a header. subst header. unfold headerTranslate, weekdaysOpacity.
  fold a. pose proof (agendaHeight_nonneg viewHeight) as Ha. fold a in Ha.
  split; [reflexivity|].
  rewrite !interpolate_header by done.
  change HEADER_HEIGHT with 94. rewrite interpolate_opacity.
  repeat split; try reflexivity; unfold clamp; split_minmax; lra.
Qed.

Lemma drag_to_header_mapping_witness :
  100 <= 200
  ∧ interpolate (headerTranslate 800) 100 == 706 - clamp 100 0 706
  ∧ interpolate (headerTranslate 800) 200 <= interpolate (headerTranslate 800) 100
  ∧ interpolate (weekdaysOpacity 800) 100 == 0.
Proof.
  split; [discriminate|].
  destruct (drag_to_header_mapping 800 100 200) as (_ & Hy & _ & _ & Hmono & Hop).
  - discriminate.
  - split; [|split]; [exact Hy | exact Hmono | rewrite Hop; reflexivity].
Defined.

(** The instance of C10 at a view 100 units high: the lower bound of the
    opacity's input range is negative there. *)
Lemma input_bounds_counterexample :
  ¬ (0 <= initialScrollPadPosition 100
     ∧ 0 <= agendaHeight 100
     ∧ nonneg_range (weekdaysOpacity 100)
     ∧ nonneg_range (weekdaysTranslateY 100)
     ∧ nonneg_range (headerTranslate 100)
     ∧ nonneg_range (contentTranslate 100)).
Proof. intros (_ & _ & [Hlow _] & _). vm_compute in Hlow. by apply Hlow. Qed.

(** C10 (amended).  For every view height the initial position of the scroll
    pad is [max(0, viewHeight - 94)], it and [agendaHeight] are at least
    zero, and so are both bounds of the input ranges of the header
    translate, the content translate and the week-day row's translate; the
    input range of the week-day row's opacity runs from [agendaHeight - 94]
    up to [agendaHeight], where only the upper bound is known to be at
    least zero. *)
Theorem derived_heights_clamped (viewHeight : Q) :
  initialScrollPadPosition viewHeight == Qmax 0 (viewHeight - 94)
  ∧ 0 <= initialScrollPadPosition viewHeight
  ∧ 0 <= agendaHeight viewHeight
  ∧ nonneg_range (weekdaysTranslateY viewHeight)
  ∧ nonneg_range (headerTranslate viewHeight)
  ∧ nonneg_range (contentTranslate viewHeight)
  ∧ (inputRange (weekdaysOpacity viewHeight)).1 == agendaHeight viewHeight - 94
  ∧ 0 <= (inputRange (weekdaysOpacity viewHeight)).2.
Proof.
  pose proof (agendaHeight_nonneg viewHeight) as Ha.
  unfold nonneg_range, weekdaysTranslateY, headerTranslate, contentTranslate,
    weekdaysOpacity. cbn [inputRange fst snd].
  repeat split; try done; try reflexivity.
  apply Q.le_max_l.
Qed.

End LayoutProperties.

(** * Properties of [generateMarkings] *)

Section MarkingsProperties.

Import AgendaView.
Context `{DateLib}.
Implicit Types (h : heap) (l : loc) (v : value) (k : string).

Lemma alloc_fresh o h : h !! (alloc o h).1 = None.
Proof. apply not_elem_of_dom, is_fresh. Qed.

Lemma alloc_heap o h : (alloc o h).2 = <[(alloc o h).1 := o]> h.
Proof. reflexivity. Qed.

Lemma alloc_extends o h : h ⊆ (alloc o h).2.
Proof. rewrite alloc_heap. apply insert_subseteq, alloc_fresh. Qed.

Lemma set_extends h0 h l k v :
  h0 ⊆ h → h0 !! l = None → h0 ⊆ JS.set l k v h.
Proof.
  intros Hsub Hl. unfold JS.set.
  destruct (h !! l) as [[fields|elems]|]; try done.
  by apply insert_subseteq_r.
Qed.

Lemma mark_key_extends h0 items m h k :
  h0 ⊆ h → h0 !! m = None → h0 ⊆ mark_key items m h k.
Proof.
  intros Hsub Hm. unfold mark_key.
  destruct (_ && _); [|done].
  destruct (alloc _ h) as [o h'] eqn:E.
  apply set_extends; [|done].
  etrans; [exact Hsub|]. replace h' with (alloc (Obj {["marked" := VBool true]}) h).2 by (by rewrite E).
  apply alloc_extends.
Qed.

Lemma foldl_mark_key_extends h0 items m keys h :
  h0 ⊆ h → h0 !! m = None → h0 ⊆ foldl (mark_key items m) h keys.
Proof.
  revert h. induction keys as [|k keys IH]; intros h Hsub Hm; [done|].
  cbn [foldl]. apply IH; [|done]. by apply mark_key_extends.
Qed.

Lemma generateMarkings_extends p d h : h ⊆ (generateMarkings p d h).2.
Proof.
  unfold generateMarkings.
  destruct (markedDates p) as [l|].
  - cbn. etrans; [|apply insert_subseteq, not_elem_of_dom, is_fresh].
    apply insert_subseteq, not_elem_of_dom, is_fresh.
  - cbn. etrans; [|apply insert_subseteq, not_elem_of_dom, is_fresh].
    etrans; [|apply insert_subseteq, not_elem_of_dom, is_fresh].
    apply foldl_mark_key_extends.
    + apply insert_subseteq, not_elem_of_dom, is_fresh.
    + apply not_elem_of_dom, is_fresh.
Qed.

Lemma own_props_falsy h v : truthy v = false → own_props h v = ∅.
Proof.
  destruct v as [| |b|n|s|l]; try done.
  destruct s; [done|discriminate].
Qed.

Lemma get_weaken h h' l k : is_Some (h !! l) → h ⊆ h' → JS.get h' (VRef l) k = JS.get h (VRef l) k.
Proof.
  intros [o Ho] Hsub. cbn. by rewrite (lookup_weaken _ _ _ _ Ho Hsub), Ho.
Qed.

Lemma item_list_weaken h h' v vs :
  item_list h v = Some vs → h ⊆ h' → item_list h' v = Some vs.
Proof.
  destruct v as [| |b|n|s|l]; try done. cbn.
  destruct (h !! l) as [[fields|elems]|] eqn:E; try done.
  intros [= <-] Hsub. by rewrite (lookup_weaken _ _ _ _ E Hsub).
Qed.

(** On a typed items map the test of the loop body is [has_items]. *)
Lemma mark_test_has_items h0 h items k :
  items_typed h0 items → h0 ⊆ h →
  truthy (JS.get h (of_prop items) k)
  && truthy (JS.get h (JS.get h (of_prop items) k) "length")
  = has_items h0 (of_prop items) k.
Proof.
  intros Hty Hsub. destruct items as [li|]; [|done].
  destruct Hty as (fields & Hli & Hall).
  cbn [of_prop]. rewrite !(get_weaken h0 h li) by (done || by eexists).
  unfold has_items. cbn [JS.get]. rewrite Hli.
  destruct (fields !! k) as [v|] eqn:Hk; [|done]. cbn [default from_option]. unfold id.
  destruct (Hall k v Hk) as [[vs Hvs]|Hmiss].
  - rewrite Hvs. pose proof (item_list_weaken _ _ _ _ Hvs Hsub) as Hvs'.
    destruct v as [| |b|n|s|l]; try done. cbn in Hvs'. cbn.
    destruct (h !! l) as [[?|elems]|]; try done.
    injection Hvs' as ->. by destruct vs.
  - by destruct v.
Qed.

Lemma mark_key_inv h0 items m done h k :
  items_typed h0 items → h0 !! m = None →
  marks_inv h0 (of_prop items) m done h →
  marks_inv h0 (of_prop items) m (done ++ [k]) (mark_key (of_prop items) m h k).
Proof.
  intros Hty Hm (Hsub & marks & Hmarks & Hall).
  split; [by apply mark_key_extends|].
  unfold mark_key. rewrite (mark_test_has_items h0 h) by done.
  destruct (has_items h0 (of_prop items) k) eqn:Hk.
  - cbn. set (o := fresh (dom h)).
    assert (h !! o = None) as Ho by apply not_elem_of_dom, is_fresh.
    assert (o ≠ m) as Hne by (intros ->; congruence).
    unfold JS.set. rewrite lookup_insert_ne, Hmarks by done.
    exists (<[k := VRef o]> marks). split; [by rewrite lookup_insert_eq|].
    intros k'. destruct (decide (k = k')) as [<-|Hkk].
    + rewrite lookup_insert_eq. split; [apply elem_of_app; right; by apply list_elem_of_singleton|]. split; [done|].
      exists o. split; [done|]. split; [done|].
      by rewrite lookup_insert_ne, lookup_insert_eq.
    + rewrite lookup_insert_ne by done. specialize (Hall k').
      destruct (marks !! k') as [v|].
      * destruct Hall as (Hin & Hit & o' & -> & Hne' & Ho').
        split; [apply elem_of_app; by left|]. split; [done|].
        exists o'. split; [done|]. split; [done|].
        rewrite lookup_insert_ne by done.
        rewrite lookup_insert_ne; [done|]. intros <-. congruence.
      * intros [Hin| ->%list_elem_of_singleton]%elem_of_app; [by apply Hall|done].
  - exists marks. split; [done|]. intros k'. specialize (Hall k').
    destruct (marks !! k') as [v|].
    + destruct Hall as (Hin & Hrest). split; [|done]. apply elem_of_app. by left.
    + intros [Hin| ->%list_elem_of_singleton]%elem_of_app; [by apply Hall|done].
Qed.

Lemma foldl_mark_key_inv h0 items m keys done h :
  items_typed h0 items → h0 !! m = None →
  marks_inv h0 (of_prop items) m done h →
  marks_inv h0 (of_prop items) m (done ++ keys)
    (foldl (mark_key (of_prop items) m) h keys).
Proof.
  intros Hty Hm. revert done h.
  induction keys as [|k keys IH]; intros done h Hinv.
  - by rewrite app_nil_r.
  - cbn [foldl]. replace (done ++ k :: keys) with ((done ++ [k]) ++ keys)
      by (by rewrite <- app_assoc).
    apply IH. by apply mark_key_inv.
Qed.

Lemma has_items_key h h1 items k :
  items_typed h items → h ⊆ h1 →
  has_items h (of_prop items) k = true → k ∈ Object_keys h1 (of_prop items).
Proof.
  intros Hty Hsub. destruct items as [li|]; [|done].
  destruct Hty as (fields & Hli & _).
  unfold has_items, Object_keys. cbn [of_prop JS.get own_props].
  rewrite (lookup_weaken _ _ _ _ Hli Hsub), Hli.
  destruct (fields !! k) as [v|] eqn:Hk; [|done]. intros _.
  apply list_elem_of_fmap. exists (k, v). split; [done|].
  by apply elem_of_map_to_list.
Qed.

Lemma generateMarkings_provided p d h l :
  markedDates p = Some l →
  let key := XDate_toString d in
  let e := fresh (dom h) in
  let h1 := <[e := Obj (<["selected" := VBool true]>
                          (own_props h (JS.get h (VRef l) key)))]> h in
  let r := fresh (dom h1) in
  generateMarkings p d h
  = (VRef r, <[r := Obj (<[key := VRef e]> (own_props h (VRef l)))]> h1).
Proof.
  intros Hmd. unfold generateMarkings. rewrite Hmd. cbn.
  destruct (truthy _) eqn:E; [done|].
  by rewrite (own_props_falsy _ _ E).
Qed.

Lemma generateMarkings_absent p d h :
  markedDates p = None → items_typed h (items p) →
  let key := XDate_toString d in
  let marked := if has_items h (of_prop (items p)) key
                then {[ "marked" := VBool true ]} else ∅ in
  ∃ r e marks h',
    generateMarkings p d h = (VRef r, h') ∧
    h !! r = None ∧ h !! e = None ∧
    h' !! r = Some (Obj (<[key := VRef e]> marks)) ∧
    h' !! e = Some (Obj (<["selected" := VBool true]> marked)) ∧
    ∀ k, match marks !! k with
         | Some v =>
             has_items h (of_prop (items p)) k = true ∧
             ∃ o, v = VRef o ∧ h' !! o = Some (Obj {[ "marked" := VBool true ]})
         | None => has_items h (of_prop (items p)) k = false
         end.
Proof.
  intros Hmd Hty key marked. unfold generateMarkings. rewrite Hmd. cbn.
  set (m := fresh (dom h)). set (h1 := <[m := Obj ∅]> h).
  assert (h !! m = None) as Hm by apply not_elem_of_dom, is_fresh.
  assert (h ⊆ h1) as Hsub1 by by apply insert_subseteq.
  set (keys := Object_keys h1 (of_prop (items p))).
  destruct (foldl_mark_key_inv h (items p) m keys [] h1 Hty Hm)
    as (Hsub & marks & Hmarks & Hall).
  { split; [done|]. exists ∅. split; [apply lookup_insert_eq|].
    intros k. rewrite lookup_empty. by intros ?%elem_of_nil. }
  cbn [app] in Hall. set (hm := foldl _ h1 keys) in *.
  rewrite Hmarks. fold key.
  set (e := fresh (dom hm)).
  assert (hm !! e = None) as He by apply not_elem_of_dom, is_fresh.
  set (entry := <["selected" := VBool true]> _).
  set (r := fresh (dom (<[e := Obj entry]> hm))).
  assert (<[e := Obj entry]> hm !! r = None) as Hr
    by apply not_elem_of_dom, is_fresh.
  apply lookup_insert_None in Hr as [Hr Her].
  exists r, e, marks, (<[r := Obj (<[key := VRef e]> marks)]> (<[e := Obj entry]> hm)).
  split; [done|].
  split; [by eapply lookup_weaken_None|].
  split; [by eapply lookup_weaken_None|].
  split; [apply lookup_insert_eq|].
  split.
  - rewrite lookup_insert_ne, lookup_insert_eq by done. do 2 f_equal.
    subst entry marked. f_equal. specialize (Hall key).
    destruct (marks !! key) as [v|].
    + destruct Hall as (_ & -> & o & -> & _ & Ho). cbn. by rewrite Ho.
    + cbn. destruct (has_items _ _ key) eqn:Hk; [|done].
      pose proof (has_items_key h h1 _ _ Hty Hsub1 Hk) as Hin.
      specialize (Hall Hin). congruence.
  - intros k. specialize (Hall k). destruct (marks !! k) as [v|].
    + destruct Hall as (_ & Hk & o & -> & _ & Ho). split; [done|].
      exists o. split; [done|].
      rewrite !lookup_insert_ne; [done|intros <-; congruence..].
    + destruct (has_items _ _ k) eqn:Hk; [|done].
      pose proof (has_items_key h h1 _ _ Hty Hsub1 Hk) as Hin.
      specialize (Hall Hin). congruence.
Qed.

Lemma get_obj h l fields k :
  h !! l = Some (Obj fields) →
  JS.get h (VRef l) k = default VUndefined (fields !! k).
Proof. intros Hl. cbn. by rewrite Hl. Qed.

Lemma own_props_obj h l fields :
  h !! l = Some (Obj fields) → own_props h (VRef l) = fields.
Proof. intros Hl. cbn. by rewrite Hl. Qed.

(** Whatever the props, the result is two new cells on top of a heap that
    still holds every cell of the heap the method started from. *)
Lemma generateMarkings_shape p d h :
  ∃ hm copied fields,
    h ⊆ hm ∧
    let e := fresh (dom hm) in
    let h1 := <[e := Obj fields]> hm in
    let r := fresh (dom h1) in
    generateMarkings p d h
    = (VRef r, <[r := Obj (<[XDate_toString d := VRef e]> copied)]> h1).
Proof.
  unfold generateMarkings. destruct (markedDates p) as [l|]; cbn.
  - by eexists h, _, _.
  - eexists _, _, _. split; [|done].
    apply foldl_mark_key_extends.
    + apply insert_subseteq, not_elem_of_dom, is_fresh.
    + apply not_elem_of_dom, is_fresh.
Qed.

(** C1.  [generateMarkings] aggregates markings by date.  On a typed items
    map, when [markedDates] is absent, the keys of the result whose entry
    has [marked: true] are exactly the keys of [items] with a non-empty
    list; and in every case the entry of the selected day
    ([selectedDay] printed as [yyyy-MM-dd]) has [selected: true] on top of
    the fields that entry had before, which are all kept. *)
Theorem generateMarkings_aggregates p d h (Hty : items_typed h (items p)) :
  let key := XDate_toString d in
  let result := generateMarkings p d h in
  let before :=
    match markedDates p with
    | Some l => own_props h (JS.get h (VRef l) key)
    | None => if has_items h (of_prop (items p)) key
              then {[ "marked" := VBool true ]} else ∅
    end in
  (markedDates p = None →
   ∀ k, has_flag result.2 result.1 k "marked"
        = has_items h (of_prop (items p)) k)
  ∧ has_flag result.2 result.1 key "selected" = true
  ∧ own_props result.2 (JS.get result.2 result.1 key)
    = <["selected" := VBool true]> before.
Proof.
  intros key result before. subst result before.
  destruct (markedDates p) as [l|] eqn:Hmd.
  - split; [done|]. rewrite (generateMarkings_provided p d h l Hmd).
    fold key. cbn [fst snd].
    set (e := fresh (dom h)). set (h1 := <[e := _]> h).
    set (r := fresh (dom h1)).
    assert (r ≠ e) as Hre.
    { intros Heq. apply (is_fresh (dom h1)). fold r. rewrite Heq.
      apply elem_of_dom. unfold h1. rewrite lookup_insert_eq. by eexists. }
    unfold has_flag. erewrite !(get_obj _ r) by apply lookup_insert_eq.
    rewrite lookup_insert_eq. cbn [default from_option]. unfold id.
    assert (<[r := Obj (<[key := VRef e]> (own_props h (VRef l)))]> h1 !! e
            = Some (Obj (<["selected" := VBool true]>
                           (own_props h (JS.get h (VRef l) key))))) as He.
    { rewrite lookup_insert_ne by done. apply lookup_insert_eq. }
    split; [|by apply own_props_obj].
    rewrite (get_obj _ _ _ _ He). by rewrite lookup_insert_eq.
  - destruct (generateMarkings_absent p d h Hmd Hty)
      as (r & e & marks & h' & -> & Hr & He & Hr' & He' & Hall).
    fold key in Hr', He'. cbn [fst snd].
    assert (JS.get h' (VRef r) key = VRef e) as Hkey.
    { cbn. by rewrite Hr', lookup_insert_eq. }
    split; [intros _ k|split].
    + unfold has_flag. destruct (decide (k = key)) as [->|Hk].
      * rewrite Hkey. cbn. rewrite He'.
        rewrite lookup_insert_ne by done.
        by destruct (has_items h _ key).
      * cbn [JS.get]. rewrite Hr', lookup_insert_ne by done.
        specialize (Hall k). destruct (marks !! k) as [v|].
        -- destruct Hall as (-> & o & -> & Ho). cbn. by rewrite Ho.
        -- by rewrite Hall.
    + unfold has_flag. rewrite Hkey. cbn. rewrite He'.
      by rewrite lookup_insert_eq.
    + rewrite Hkey. cbn. by rewrite He'.
Qed.

(** C7.  [generateMarkings] changes no object that existed when it was
    called: every cell of the heap ([props.items], [props.markedDates] and
    all they refer to among them) holds after the call what it held
    before; the returned map and its entry for the selected day are cells
    that did not exist before. *)
Theorem generateMarkings_preserves_inputs p d h l o
    (Hcell : h !! l = Some o) :
  let result := generateMarkings p d h in
  result.2 !! l = Some o
  ∧ ∃ r e, result.1 = VRef r ∧ h !! r = None
           ∧ JS.get result.2 result.1 (XDate_toString d) = VRef e
           ∧ h !! e = None.
Proof.
  intros result. subst result.
  destruct (generateMarkings_shape p d h)
    as (hm & copied & fields & Hsub & Heq).
  cbn zeta in Heq. rewrite Heq. cbn [fst snd].
  set (e := fresh (dom hm)) in *. set (h1 := <[e := Obj fields]> hm) in *.
  set (r := fresh (dom h1)) in *.
  assert (hm !! e = None) as He by apply not_elem_of_dom, is_fresh.
  assert (h1 !! r = None) as Hr by apply not_elem_of_dom, is_fresh.
  assert (hm ⊆ h1) as Hsub1 by by apply insert_subseteq.
  split.
  - eapply lookup_weaken; [exact Hcell|].
    etrans; [exact Hsub|]. etrans; [exact Hsub1|]. by apply insert_subseteq.
  - exists r, e. split; [done|].
    split; [eapply lookup_weaken_None; [exact Hr|by etrans]|].
    split; [|by eapply lookup_weaken_None].
    cbn. by rewrite !lookup_insert_eq.
Qed.

(** C9.  When [markedDates] is provided, the items play no part: whatever
    the items map, the result is [markedDates] with the entry of the
    selected day replaced by a copy that also has [selected: true]; every
    other key has the very value it has in [markedDates], and a date
    without an entry there gets none, non-empty items list or not. *)
Theorem markedDates_suppresses_items p d h l fields
    (Hmd : markedDates p = Some l) (Hobj : h !! l = Some (Obj fields)) :
  let key := XDate_toString d in
  let result := generateMarkings p d h in
  (∀ p', markedDates p' = Some l → generateMarkings p' d h = result)
  ∧ (∃ e, own_props result.2 result.1 = <[key := VRef e]> fields
          ∧ h !! e = None
          ∧ own_props result.2 (VRef e)
            = <["selected" := VBool true]>
                (own_props h (default VUndefined (fields !! key))))
  ∧ (∀ k, k ≠ key → JS.get result.2 result.1 k = JS.get h (VRef l) k)
  ∧ (∀ k, k ≠ key → fields !! k = None →
          has_flag result.2 result.1 k "marked" = false)
  ∧ h ⊆ result.2.
Proof.
  intros key result. subst result.
  split.
  { intros p' Hmd'.
    by rewrite (generateMarkings_provided p' d h l Hmd'),
               (generateMarkings_provided p d h l Hmd). }
  split; [|split; [|split; [|apply generateMarkings_extends]]].
  all: rewrite (generateMarkings_provided p d h l Hmd); fold key; cbn [fst snd].
  all: set (e := fresh (dom h)); set (h1 := <[e := _]> h);
       set (r := fresh (dom h1)).
  all: assert (h !! e = None) as He by apply not_elem_of_dom, is_fresh.
  all: assert (r ≠ e) as Hre by
    (intros Heq; apply (is_fresh (dom h1)); fold r; rewrite Heq;
     apply elem_of_dom; unfold h1; rewrite lookup_insert_eq; by eexists).
  - exists e. cbn [own_props]. rewrite lookup_insert_eq.
    rewrite lookup_insert_ne by done. unfold h1.
    rewrite lookup_insert_eq. cbn [JS.get own_props]. by rewrite Hobj.
  - intros k Hk. cbn [JS.get]. rewrite lookup_insert_eq, Hobj.
    cbn [own_props]. rewrite Hobj. by rewrite lookup_insert_ne.
  - intros k Hk Hnone. unfold has_flag. cbn [JS.get].
    rewrite lookup_insert_eq. cbn [own_props]. rewrite Hobj.
    rewrite lookup_insert_ne by done. by rewrite Hnone.
Qed.

End MarkingsProperties.

(** The three properties on the sample heap. *)

Section MarkingsExamples.

Import AgendaView.

Lemma generateMarkings_aggregates_witness :
  let result :=
    generateMarkings sample_props {| year := 2026; month := 11; day := 1 |}
      sample_heap in
  items_typed sample_heap (items sample_props)
  ∧ has_flag result.2 result.1 "2026-11-01" "marked" = true
  ∧ has_flag result.2 result.1 "2026-11-02" "marked" = false
  ∧ has_flag result.2 result.1 "2026-11-03" "marked" = false
  ∧ has_flag result.2 result.1 "2026-11-01" "selected" = true.
Proof.
  assert (items_typed sample_heap (items sample_props)) as Hty.
  { eexists. split; [reflexivity|].
    refine (bool_decide_unpack _ _). vm_compute. exact I. }
  split; [exact Hty|].
  destruct (generateMarkings_aggregates sample_props
              {| year := 2026; month := 11; day := 1 |} sample_heap Hty)
    as (Hmarked & Hsel & _).
  rewrite !(Hmarked eq_refl).
  repeat split; try exact Hsel; vm_compute; reflexivity.
Defined.

Lemma generateMarkings_preserves_inputs_witness :
  let result :=
    generateMarkings sample_props {| year := 2026; month := 11; day := 1 |}
      sample_heap in
  sample_heap !! 2%positive = Some (Arr [VStr "meeting"])
  ∧ result.2 !! 2%positive = Some (Arr [VStr "meeting"]).
Proof.
  assert (sample_heap !! 2%positive = Some (Arr [VStr "meeting"])) as Hcell
    by reflexivity.
  split; [exact Hcell|].
  exact (proj1 (generateMarkings_preserves_inputs sample_props
                  {| year := 2026; month := 11; day := 1 |}
                  sample_heap _ _ Hcell)).
Defined.

Lemma markedDates_suppresses_items_witness :
  let result :=
    generateMarkings sample_props_marked
      {| year := 2026; month := 11; day := 2 |} sample_heap in
  markedDates sample_props_marked = Some 4%positive
  ∧ sample_heap !! 4%positive = Some (Obj {[ "2026-11-02" := VRef 5%positive ]})
  ∧ has_items sample_heap (VRef 1%positive) "2026-11-01" = true
  ∧ has_flag result.2 result.1 "2026-11-01" "marked" = false.
Proof.
  assert (markedDates sample_props_marked = Some 4%positive) as Hmd
    by reflexivity.
  assert (sample_heap !! 4%positive
          = Some (Obj {[ "2026-11-02" := VRef 5%positive ]})) as Hobj
    by reflexivity.
  split; [exact Hmd|]. split; [exact Hobj|]. split; [reflexivity|].
  destruct (markedDates_suppresses_items sample_props_marked
              {| year := 2026; month := 11; day := 2 |} sample_heap _ _
              Hmd Hobj) as (_ & _ & _ & Hnone & _).
  apply Hnone; [discriminate|reflexivity].
Defined.

End MarkingsExamples.

(** * Properties of the life cycle *)

Section LifecycleProperties.

Import AgendaView.
Context `{DateLib}.

(** Symbolic execution of a method on an opened world. *)

Ltac unfold_methods :=
  unfold exec, perform, componentWillMount, componentWillUnmount,
    componentDidUpdate, onLayout, onScrollPadLayout, onCalendarLayout,
    onVisibleMonthsChange, _chooseDayFromCalendar, expandCalendar,
    compactCalendar, chooseDay, enableCalendarScrolling, loadReservations,
    fireTimer, elapse, render, run_callback, setScrollPadPosition,
    initialScrollPadPosition, calendarOffset, setState, emit, defined,
    clearTimeout, setTimeout, when, throw, read, update,
    mbind, mret, M_bind, M_ret.

Ltac exec_step :=
  match goal with
  | |- context [if ?b then _ else _] => destruct b eqn:?
  | |- context [match ?x with Some _ => _ | None => _ end] => destruct x eqn:?
  | |- context [match ?x with Returned _ => _ | Thrown _ => _ end] => destruct x eqn:?
  | |- context [match ?x with SetCalendarIsReady => _ | _ => _ end] => destruct x eqn:?
  end.

Ltac symex := unfold_methods; cbn; repeat (exec_step; cbn).

Ltac open_world w :=
  let p := fresh "p" in
  let s := fresh "s" in
  destruct w as [p s ? ? ? ? ? ? ? ? ?]; destruct s as [? ? ? ? ?].

(** C8 (amended).  The constructor gives the selected date and the top
    visible date the parse of the [selected] prop when that is a date, the
    same value for both; otherwise each gets the date of its own reading of
    the clock, the second reading coming [dt] after the first.  So with
    [selected] omitted (and [parseDate(undefined)] undefined) the selected
    date is the date at [t] and the top date the date at [t + dt], and the
    two agree whenever the two readings give one date, as they do when no
    time passes between them. *)
Theorem constructor_initial_dates (Hundef : parseDate None = None)
    (p : Props) (height width : Q) (h : heap) (t dt : N) :
  let w := constructor p height width h t dt in
  (∀ d, parseDate (selected p) = Some d →
        selectedDay (state w) = d ∧ topDay (state w) = d)
  ∧ (parseDate (selected p) = None →
     selectedDay (state w) = XDate_now t
     ∧ topDay (state w) = XDate_now (t + dt))
  ∧ (selected p = None →
     selectedDay (state w) = XDate_now t
     ∧ topDay (state w) = XDate_now (t + dt))
  ∧ (is_Some (parseDate (selected p)) ∨ XDate_now t = XDate_now (t + dt) →
     selectedDay (state w) = topDay (state w))
  ∧ (dt = 0%N → selectedDay (state w) = topDay (state w)).
Proof.
  cbn. split_and!.
  - by intros d ->.
  - by intros ->.
  - intros ->. by rewrite Hundef.
  - intros [[d ->]| Hsame]; [done|].
    destruct (parseDate (selected p)); [done|]. exact Hsame.
  - intros ->. by rewrite N.add_0_r.
Qed.

(** C2.  The view has two states, held in the boolean
    [calendarScrollable]: the constructor starts compact,
    [enableCalendarScrolling] and [expandCalendar] set it to true,
    [chooseDay] (on a date) and [compactCalendar] set it to false, and
    every other action leaves it as it is; in the world after any action
    it is true or false, and dragging is allowed (the scroll pad sits
    below the header) exactly when it is false. *)
Theorem view_state_machine
    (Hparse : ∀ d : XDate, is_Some (parseDate (Some (ofXDate d))))
    (a : Action) (w : World) :
  let w' := exec (perform a) w in
  calendarScrollable (state w')
    = default (calendarScrollable (state w)) (toggles a)
  ∧ calendarScrollable (state (exec enableCalendarScrolling w)) = true
  ∧ calendarScrollable (state (exec expandCalendar w)) = true
  ∧ calendarScrollable (state (exec compactCalendar w)) = false
  ∧ (∀ d, is_Some (parseDate d) →
          calendarScrollable (state (exec (chooseDay d) w)) = false)
  ∧ (∀ p height width h t dt,
       calendarScrollable (state (constructor p height width h t dt)) = false)
  ∧ (calendarScrollable (state w') = true
     ∨ calendarScrollable (state w') = false)
  ∧ (shouldAllowDragging (state w') = true
     ↔ calendarScrollable (state w') = false)
  ∧ scrollPadPosition (state w')
    = if calendarScrollable (state w') then 0%Q else Layout.HEADER_HEIGHT.
Proof.
  intros w'.
  assert (∀ b : bool, b = true ∨ b = false) as Hbool by (intros []; auto).
  assert (∀ s, shouldAllowDragging s = true ↔ calendarScrollable s = false)
    as Hdrag by (intros s; unfold shouldAllowDragging; by destruct (calendarScrollable s)).
  assert (∀ s, scrollPadPosition s
               = if calendarScrollable s then 0%Q else Layout.HEADER_HEIGHT)
    as Hpad by (intros s; unfold scrollPadPosition, shouldAllowDragging;
                by destruct (calendarScrollable s)).
  subst w'. split_and!; try done; try (open_world w; by symex).
  - open_world w.
    destruct a as [| |p'|prev| |height width| | |months|d| | |ms|].
    all: symex; try done.
    all: match goal with
         | Hn : parseDate (Some (ofXDate ?d)) = None |- _ =>
             destruct (Hparse d) as [? Hd]; congruence
         end.
  - open_world w. symex; try done.
    all: match goal with
         | Hn : parseDate (Some (ofXDate ?d)) = None |- _ =>
             destruct (Hparse d) as [? Hd]; congruence
         end.
  - intros d [day Hday]. open_world w. unfold exec, chooseDay. rewrite Hday.
    by symex.
Qed.

(** C5.  Expanding is sequenced by timers.  [enableCalendarScrolling] sets
    [calendarScrollable] at once and sets a timer due 500 ms later; that
    timer's callback scrolls the calendar to the selected day and sets a
    timer due 500 ms after it ran; that one calls [onCalendarToggled(true)]
    if the prop is there.  [chooseDay] sets a timer for
    [onCalendarToggled(false)], due 1000 ms later, when it is entered with
    the calendar expanded and none when it is entered compact, and calls
    [onCalendarToggled] itself in neither case.  The host runs a timer
    only once it is due. *)
Theorem expansion_is_sequenced_by_timers (w : World) (d : option DateArg) :
  let timer cb delay :=
    {| timerId := nextTimerId w; due := (clock w + delay)%N; callback := cb |} in
  (let w1 := exec enableCalendarScrolling w in
   calendarScrollable (state w1) = true
   ∧ timers w1 = timers w ++ [timer ScrollCalendarToSelected 500%N]
   ∧ trace w1 = trace w)
  ∧ (let w2 := exec (run_callback ScrollCalendarToSelected) w in
     trace w2
       = trace w ++ [(clock w, CalendarScrollToDay (selectedDay (state w)) 0 false)]
     ∧ timers w2 = timers w ++ [timer (NotifyToggled true) 500%N])
  ∧ (∀ opened,
       let w3 := exec (run_callback (NotifyToggled opened)) w in
       trace w3
         = trace w ++ (if onCalendarToggled (props w)
                       then [(clock w, OnCalendarToggled opened)] else [])
       ∧ timers w3 = timers w)
  ∧ (let w4 := exec (chooseDay d) w in
     timers w4
       = timers w ++ (if calendarScrollable (state w)
                      then [timer (NotifyToggled false) 1000%N] else [])
     ∧ Forall (λ te, calls PropOnCalendarToggled te.2 = false)
         (new_effects w w4))
  ∧ (∀ t, next_due (timers w) = Some t →
          exec fireTimer w
          = if (due t <=? clock w)%N
            then exec (run_callback (callback t))
                   (exec (clearTimeout (Some (timerId t))) w)
            else w).
Proof.
  open_world w. intros timer. subst timer. unfold new_effects. split_and!.
  all: try (symex; done).
  - intros opened. symex; by rewrite ?app_nil_r.
  - symex; by rewrite ?app_nil_r.
  - symex; rewrite <- ?app_assoc, ?drop_app_length, ?drop_all.
    all: repeat constructor.
  - intros t Ht. cbn in Ht. unfold exec at 1.
    unfold fireTimer, mbind, M_bind, read. cbn. rewrite Ht.
    unfold when. by destruct (due t <=? clock0)%N.
Qed.


#[local] Arguments calls : simpl never.




(** The timers of a reachable world. *)

Lemma timers_ok_filter st n ts (P : Timer → Prop) `{!∀ t, Decision (P t)} :
  timers_ok st n ts → timers_ok st n (filter P ts).
Proof.
  intros (Hnd & Hlt & Hload). split_and!.
  - eapply sublist_NoDup; [exact Hnd|]. apply fmap_sublist, sublist_filter.
  - rewrite Forall_forall in *. intros t [_ Ht]%list_elem_of_filter. auto.
  - rewrite Forall_forall in *. intros t [_ Ht]%list_elem_of_filter. auto.
Qed.

Lemma timers_ok_snoc st st' n ts t :
  timerId t = n →
  (is_month_load t = true → st' = Some n) →
  (st' = st ∨ Forall (λ u, is_month_load u = false) ts) →
  timers_ok st n ts → timers_ok st' (S n) (ts ++ [t]).
Proof.
  intros Hid Ht Hold (Hnd & Hlt & Hload). split_and!.
  - rewrite fmap_app. apply NoDup_app. split; [done|]. split.
    + intros i (u & -> & Hu)%list_elem_of_fmap Hi.
      cbn in Hi. apply list_elem_of_singleton in Hi.
      rewrite Forall_forall in Hlt. specialize (Hlt u Hu). lia.
    + cbn. apply NoDup_singleton.
  - apply Forall_app. split.
    + eapply Forall_impl; [exact Hlt|]. cbn. lia.
    + apply Forall_singleton. lia.
  - apply Forall_app. split.
    + destruct Hold as [->|Hnone]; [done|].
      rewrite Forall_forall in *. intros u Hu Hl.
      rewrite (Hnone u Hu) in Hl. discriminate.
    + apply Forall_singleton. by rewrite Hid.
Qed.

Lemma timers_ok_cleared st n ts :
  timers_ok st n ts →
  Forall (λ u, is_month_load u = false)
    (match st with
     | Some i => filter (λ t, timerId t ≠ i) ts
     | None => ts
     end).
Proof.
  intros (_ & _ & Hload). rewrite Forall_forall in Hload.
  destruct st as [i|]; apply Forall_forall.
  - intros u [Hne Hu]%list_elem_of_filter.
    destruct (is_month_load u) eqn:E; [|done].
    specialize (Hload u Hu E). congruence.
  - intros u Hu. destruct (is_month_load u) eqn:E; [|done].
    by specialize (Hload u Hu E).
Qed.

Lemma timers_ok_one_load st n ts :
  timers_ok st n ts →
  length (filter (λ t, is_month_load t = true) ts) ≤ 1.
Proof.
  intros (Hnd & _ & Hload). induction ts as [|t ts IH]; [cbn; lia|].
  rewrite fmap_cons in Hnd. apply NoDup_cons in Hnd as [Hnotin Hnd].
  apply Forall_cons in Hload as [Ht Hload].
  rewrite filter_cons. case_decide as Hl; [|by apply IH].
  assert (filter (λ t, is_month_load t = true) ts = []) as ->; [|cbn; lia].
  destruct (filter _ ts) as [|u us] eqn:E; [done|exfalso].
  assert (u ∈ filter (λ t, is_month_load t = true) ts) as Hu
    by (rewrite E; left).
  apply list_elem_of_filter in Hu as [Hul Hu].
  rewrite Forall_forall in Hload. specialize (Hload u Hu Hul).
  apply Hnotin. rewrite (Ht Hl) in Hload. injection Hload as ->.
  by apply list_elem_of_fmap_2.
Qed.

(** Every action changes the timers in one of three ways: it sets a timer
    that is not a month load, it clears a timer, or it replaces the month
    load that [scrollTimeout] names by a new one. *)
Lemma perform_timers_closed (I : option nat → nat → list Timer → Prop)
    (Hset : ∀ st n ts cb delay,
       match cb with LoadVisibleMonth _ => False | _ => True end →
       I st n ts →
       I st (S n) (ts ++ [{| timerId := n; due := delay; callback := cb |}]))
    (Hclear : ∀ st n ts i,
       I st n ts → I st n (filter (λ t, timerId t ≠ i) ts))
    (Hreload : ∀ st n ts months delay,
       I st n ts →
       I (Some n) (S n)
         (match st with
          | Some i => filter (λ t, timerId t ≠ i) ts
          | None => ts
          end ++ [{| timerId := n; due := delay;
                     callback := LoadVisibleMonth months |}]))
    (a : Action) (w : World) :
  I (scrollTimeout w) (nextTimerId w) (timers w) →
  let w' := exec (perform a) w in
  I (scrollTimeout w') (nextTimerId w') (timers w').
Proof.
  intros Hok w'. subst w'. open_world w. cbn in Hok.
  destruct a as [| |p'|prev| |height width| | |months|d| | |ms|].
  all: symex; try done.
  all: try (by apply Hset).
  all: try (by apply Hreload with (st := None)).
  all: try (by apply Hreload with (st := Some _)).
  all: try (by apply Hclear).
  all: try (by apply Hset; [done|apply Hclear]).
Qed.

Lemma reachable_timers_inv w : reachable w → timers_inv w.
Proof.
  induction 1 as [p height width h t dt|a w Hw IH].
  - split_and!; cbn; [apply NoDup_nil_2|done..].
  - revert IH. unfold timers_inv.
    apply (perform_timers_closed timers_ok).
    + intros st n ts cb delay Hcb Hok.
      eapply timers_ok_snoc; [done| |by left|done].
      unfold is_month_load. cbn. by destruct cb.
    + intros st n ts i Hok. by apply timers_ok_filter.
    + intros st n ts months delay Hok.
      eapply (timers_ok_snoc st); [done|done|right; by eapply timers_ok_cleared|].
      destruct st; [by apply timers_ok_filter|done].
Qed.

(** C6.  In every reachable world at most one month-load timer is pending.
    A call of [onVisibleMonthsChange] that sets one leaves it as the only
    one pending, [scrollTimeout] naming it, the one pending before being
    cleared; otherwise the call does nothing.  Its callback calls
    [loadItemsForMonth(months[0])] only if the prop is there and
    [_isMounted] is true when it runs.  Unmounting clears [_isMounted] and
    leaves the timers alone. *)
Theorem single_pending_month_load (w : World) (Hw : reachable w) :
  length (pending_month_loads w) ≤ 1
  ∧ (∀ months,
       let w' := exec (onVisibleMonthsChange months) w in
       if bool_decide (is_Some (items (props w)))
          && negb (firstResevationLoad (state w))
       then pending_month_loads w'
            = [{| timerId := nextTimerId w; due := (clock w + 200)%N;
                  callback := LoadVisibleMonth months |}]
            ∧ scrollTimeout w' = Some (nextTimerId w)
            ∧ Forall (λ t, t ∉ timers w') (pending_month_loads w)
       else w' = w)
  ∧ (∀ months,
       let w' := exec (run_callback (LoadVisibleMonth months)) w in
       trace w'
       = trace w ++ (if loadItemsForMonth (props w) && _isMounted w
                     then [(clock w, LoadItemsForMonth (head months))]
                     else []))
  ∧ (let w' := exec componentWillUnmount w in
     timers w' = timers w
     ∧ scrollTimeout w' = scrollTimeout w
     ∧ _isMounted w' = false).
Proof.
  pose proof (reachable_timers_inv w Hw) as Hinv.
  split_and!; [by eapply timers_ok_one_load|..]; try done.
  - intros months w'. subst w'.
    pose proof (timers_ok_cleared _ _ _ Hinv) as Hcleared.
    destruct Hinv as (Hnd & Hlt & Hload).
    unfold pending_month_loads. open_world w. cbn in *.
    unfold exec, onVisibleMonthsChange, mbind, M_bind, read, when. cbn.
    destruct (_ && _); [|done]. symex.
    all: rewrite filter_app, filter_cons_True, filter_nil by done.
    all: assert (∀ l, Forall (λ u : Timer, is_month_load u = false) l →
                      filter (λ t, is_month_load t = true) l = []) as Hnil
      by (induction 1 as [|u l Hu _ IH]; [done|];
          rewrite filter_cons_False by congruence; done).
    all: rewrite (Hnil _ Hcleared); split_and!; try done.
    all: apply Forall_forall; intros t [Hl Ht]%list_elem_of_filter.
    all: rewrite Forall_forall in Hload; specialize (Hload t Ht Hl).
    all: try done.
    all: intros [Hin| ->%list_elem_of_singleton]%elem_of_app.
    + apply list_elem_of_filter in Hin as [Hne _]. congruence.
    + rewrite Forall_forall in Hlt. specialize (Hlt _ Ht). cbn in Hlt. lia.
  - intros months w'. subst w'. open_world w.
    symex; by rewrite ?app_nil_r.
Qed.
End LifecycleProperties.

(** The life cycle on the sample inputs. *)

Section LifecycleExamples.

Import AgendaView.

Lemma constructor_initial_dates_witness :
  sample_parseDate None = None
  ∧ selectedDay (state sample_world) = of_epoch_ms 0
  ∧ topDay (state sample_world) = of_epoch_ms 0.
Proof.
  split; [reflexivity|].
  destruct (constructor_initial_dates (H := sample_dates) eq_refl
              sample_props 800 400 sample_heap 0 0) as (_ & _ & Hnone & _).
  by apply Hnone.
Defined.

(** The instance of C8 for a construction with [selected] omitted while the
    day turns: the clock reads the last millisecond of 1 January 1970 for
    [selectedDay] and the next millisecond for [topDay], so the selected
    date is 1 January and the top date 2 January. *)
Lemma constructor_dates_counterexample :
  let w := constructor sample_props 800 400 sample_heap 86399999 1 in
  selected (props w) = None
  ∧ selectedDay (state w) = {| year := 1970; month := 1; day := 1 |}
  ∧ topDay (state w) = {| year := 1970; month := 1; day := 2 |}
  ∧ ¬ (selected (props w) = None →
       selectedDay (state w) = topDay (state w)).
Proof.
  cbv zeta. split_and!; [reflexivity|by vm_compute|by vm_compute|].
  intros Hsame. specialize (Hsame eq_refl). vm_compute in Hsame. discriminate.
Qed.

Lemma sample_xdate_parses (d : Ymd) :
  is_Some (sample_parseDate (Some (ArgXDate d))).
Proof. by eexists. Qed.

Lemma view_state_machine_witness :
  (∀ d : Ymd, is_Some (sample_parseDate (Some (ArgXDate d))))
  ∧ calendarScrollable (state (exec (perform ExpandCalendar) sample_world))
    = true
  ∧ calendarScrollable
      (state (exec (perform CompactCalendar)
                (exec (perform ExpandCalendar) sample_world)))
    = false.
Proof.
  split; [exact sample_xdate_parses|]. split.
  - exact (proj1 (view_state_machine (H := sample_dates) sample_xdate_parses
                    ExpandCalendar sample_world)).
  - exact (proj1 (view_state_machine (H := sample_dates) sample_xdate_parses
                    CompactCalendar
                    (exec (perform ExpandCalendar) sample_world))).
Defined.

Lemma expansion_is_sequenced_by_timers_witness :
  timers (exec enableCalendarScrolling sample_world)
  = [{| timerId := 0; due := 500%N; callback := ScrollCalendarToSelected |}].
Proof.
  destruct (expansion_is_sequenced_by_timers (H := sample_dates)
              sample_world None) as ((_ & Htimers & _) & _).
  exact Htimers.
Defined.

(** The whole expansion on the clock: nothing at 499 ms, the scroll at
    500 ms, the notification at 1000 ms. *)
Example expansion_timeline :
  trace (run [ExpandCalendar; Elapse 499; FireTimer; Elapse 1; FireTimer;
              Elapse 499; FireTimer; Elapse 1; FireTimer] sample_world)
  = [(0%N, ScrollPadScrollTo 0 true);
     (500%N, CalendarScrollToDay (of_epoch_ms 0) 0 false);
     (1000%N, OnCalendarToggled true)].
Proof. vm_compute. reflexivity. Qed.


Lemma single_pending_month_load_witness :
  let w := run [OnVisibleMonthsChange [{| year := 2026; month := 11; day := 1 |}];
                OnVisibleMonthsChange [{| year := 2026; month := 12; day := 1 |}]]
             sample_world in
  reachable w ∧ length (pending_month_loads w) ≤ 1.
Proof.
  intros w.
  assert (reachable w) as Hw
    by (subst w; unfold run; cbn [foldl];
        apply reachable_perform, reachable_perform, reachable_constructor).
  split; [exact Hw|].
  exact (proj1 (single_pending_month_load (H := sample_dates) w Hw)).
Defined.

End LifecycleExamples.

(** * Further properties of the layout arithmetic *)

Section MoreLayoutProperties.

Import Layout.
Local Open Scope Q_scope.

Ltac cases_minmax :=
  repeat match goal with
  | |- context [Qmin ?x ?y] =>
      let H := fresh "Hmin" in
      destruct (Q.min_spec x y) as [[? H] | [? H]];
      generalize dependent (Qmin x y); intros
  | |- context [Qmax ?x ?y] =>
      let H := fresh "Hmax" in
      destruct (Q.max_spec x y) as [[? H] | [? H]];
      generalize dependent (Qmax x y); intros
  end.

Ltac cases_tests :=
  repeat match goal with
  | |- context [Qlt_le_dec ?x ?y] => destruct (Qlt_le_dec x y)
  | |- context [Qeq_bool ?x ?y] =>
      let E := fresh "E" in
      destruct (Qeq_bool x y) eqn:E;
      [apply Qeq_bool_iff in E | apply Qeq_bool_neq in E]
  | |- context [Qle_bool ?x ?y] =>
      let E := fresh "E" in
      destruct (Qle_bool x y) eqn:E;
      [apply Qle_bool_iff in E | ]
  end; cbn [orb].

(** X1.  Whatever the view height, the input range of every interpolation
    that [render] builds is ordered: the lower bound is at most the upper
    bound, and the range of the week-day opacity is exactly [HEADER_HEIGHT]
    wide, so never a single point. *)
Theorem input_ranges_are_ordered (viewHeight : Q) :
  (inputRange (weekdaysOpacity viewHeight)).1
    < (inputRange (weekdaysOpacity viewHeight)).2
  ∧ (inputRange (weekdaysOpacity viewHeight)).2
    - (inputRange (weekdaysOpacity viewHeight)).1 == HEADER_HEIGHT
  ∧ (inputRange (weekdaysTranslateY viewHeight)).1
    <= (inputRange (weekdaysTranslateY viewHeight)).2
  ∧ (inputRange (headerTranslate viewHeight)).1
    <= (inputRange (headerTranslate viewHeight)).2
  ∧ (inputRange (contentTranslate viewHeight)).1
    <= (inputRange (contentTranslate viewHeight)).2.
Proof.
  pose proof (agendaHeight_nonneg viewHeight) as Ha.
  unfold weekdaysOpacity, weekdaysTranslateY, headerTranslate,
    contentTranslate, HEADER_HEIGHT. cbn [inputRange fst snd].
  set (a := agendaHeight viewHeight) in *.
  split_and!; try lra. cases_minmax; lra.
Qed.

(** X2.  The scroll pad can always reach its initial position: that position
    is [agendaHeight], it is at least zero, and the content of the pad is
    [KNOB_HEIGHT] taller than it.  It is zero for a view no taller than the
    header and [viewHeight - HEADER_HEIGHT] otherwise. *)
Theorem scroll_pad_geometry (viewHeight : Q) :
  initialScrollPadPosition viewHeight == agendaHeight viewHeight
  ∧ 0 <= initialScrollPadPosition viewHeight
  ∧ scrollPadContentHeight viewHeight - initialScrollPadPosition viewHeight
    == KNOB_HEIGHT
  ∧ initialScrollPadPosition viewHeight < scrollPadContentHeight viewHeight
  ∧ (viewHeight <= HEADER_HEIGHT → initialScrollPadPosition viewHeight == 0)
  ∧ (HEADER_HEIGHT <= viewHeight →
     initialScrollPadPosition viewHeight == viewHeight - HEADER_HEIGHT).
Proof.
  unfold scrollPadContentHeight, initialScrollPadPosition, agendaHeight,
    KNOB_HEIGHT, HEADER_HEIGHT.
  split_and!; [..|intros ?|intros ?]; cases_minmax; lra.
Qed.

Lemma unit_fraction (lo hi r : Q) :
  lo < hi → lo <= r → r <= hi →
  0 <= (r - lo) / (hi - lo) ∧ (r - lo) / (hi - lo) <= 1.
Proof.
  intros Hlt Hlo Hhi. split.
  - apply Qle_shift_div_l; lra.
  - apply Qle_shift_div_r; lra.
Qed.

Lemma half_slope (a r : Q) :
  ¬ a == 0 → (r - 0) / (a - 0) * (a / 2 - 0) + 0 == r / 2.
Proof. intros. field. lra. Qed.

Lemma half_of_zero (a : Q) : a == 0 → a / 2 == 0.
Proof. intros ->. reflexivity. Qed.

(** X3.  The calendar content moves at half the speed of the header: its
    translate is half the clamp of [y] to [[0, agendaHeight]], which is
    half of what the header translate has given up. *)
Theorem content_moves_at_half_speed (viewHeight y : Q) :
  let a := agendaHeight viewHeight in
  interpolate (contentTranslate viewHeight) y == clamp y 0 a / 2
  ∧ interpolate (contentTranslate viewHeight) y
    == (a - interpolate (headerTranslate viewHeight) y) / 2.
Proof.
  intros a. pose proof (agendaHeight_nonneg viewHeight) as Ha. fold a in Ha.
  assert (interpolate (contentTranslate viewHeight) y == clamp y 0 a / 2) as Hc.
  { unfold contentTranslate. fold a. unfold interpolate, clamp.
    cbn [inputRange outputRange extrapolate].
    cases_tests; rewrite ?half_slope by lra.
    all: assert (∀ x, x / 2 == x * (1 # 2)) as Hhalf by reflexivity.
    all: rewrite ?Hhalf in *; cases_minmax; try lra. }
  split; [exact Hc|]. rewrite Hc.
  unfold headerTranslate. fold a. rewrite interpolate_header by done.
  assert (∀ x, x / 2 == x * (1 # 2)) as Hhalf by reflexivity.
  rewrite !Hhalf. lra.
Qed.

(** X4.  The translate of the week-day row stays between [-HEADER_HEIGHT]
    and zero for every offset and view height, and is zero once the offset
    has passed [agendaHeight]. *)
Theorem weekdays_translate_bounds (viewHeight y : Q) :
  - HEADER_HEIGHT <= interpolate (weekdaysTranslateY viewHeight) y
  ∧ interpolate (weekdaysTranslateY viewHeight) y <= 0
  ∧ (agendaHeight viewHeight < y →
     interpolate (weekdaysTranslateY viewHeight) y == 0).
Proof.
  pose proof (agendaHeight_nonneg viewHeight) as Ha.
  unfold weekdaysTranslateY, HEADER_HEIGHT.
  set (a := agendaHeight viewHeight) in *.
  assert (Qmax 0 (a - 94) <= a) as Hlo by (cases_minmax; lra).
  assert (0 <= Qmax 0 (a - 94)) as Hlo0 by apply Q.le_max_l.
  set (lo := Qmax 0 (a - 94)) in *.
  unfold interpolate. cbn [inputRange outputRange extrapolate].
  cases_tests; try lra.
  all: try (split_and!; try lra; intros; try lra).
  all: try (field; lra).
  all: match goal with
       | |- context [(?r - ?l) / (?h - ?l)] =>
           destruct (unit_fraction l h r) as [? ?]; [lra..|];
           generalize dependent ((r - l) / (h - l)); intros; lra
       end.
Qed.

(** X5.  In a view taller than the header, with the scroll pad at its initial
    position the agenda shows its compact look: header translate 0,
    week-day row fully opaque and untranslated, content translate half of
    [agendaHeight]. *)
Theorem resting_position_is_compact (viewHeight : Q)
    (Htall : HEADER_HEIGHT < viewHeight) :
  let rest := initialScrollPadPosition viewHeight in
  interpolate (headerTranslate viewHeight) rest == 0
  ∧ interpolate (weekdaysOpacity viewHeight) rest == 1
  ∧ interpolate (weekdaysTranslateY viewHeight) rest == 0
  ∧ interpolate (contentTranslate viewHeight) rest
    == agendaHeight viewHeight / 2.
Proof.
  intros rest. subst rest. unfold initialScrollPadPosition.
  fold (agendaHeight viewHeight).
  assert (0 < agendaHeight viewHeight) as Ha
    by (unfold agendaHeight, HEADER_HEIGHT in *; cases_minmax; lra).
  unfold headerTranslate, weekdaysOpacity, weekdaysTranslateY,
    contentTranslate, HEADER_HEIGHT in *.
  set (a := agendaHeight viewHeight) in *.
  assert (Qmax 0 (a - 94) < a) as Hlo by (cases_minmax; lra).
  set (lo := Qmax 0 (a - 94)) in *.
  unfold interpolate. cbn [inputRange outputRange extrapolate].
  split_and!; cases_tests; try lra; field; lra.
Qed.
End MoreLayoutProperties.

(** * Further properties of [generateMarkings] *)

Section MoreMarkingsProperties.

Import AgendaView.
Context `{DateLib}.
Implicit Types (h : heap) (l : loc) (v : value) (k : string).

(** X6.  With [markedDates] absent and a typed items map, the result of
    [generateMarkings] has an entry for a key exactly when the key has a
    non-empty list in [items] or is the selected day: a date with an empty
    or missing list gets no entry at all.  When no date has items, the
    result is the one entry of the selected day, which is
    [{selected: true}]. *)
Theorem marked_keys_domain p d h
    (Hmd : markedDates p = None) (Hty : items_typed h (items p)) :
  let key := XDate_toString d in
  let result := generateMarkings p d h in
  (∀ k, is_Some (own_props result.2 result.1 !! k)
        ↔ has_items h (of_prop (items p)) k = true ∨ k = key)
  ∧ ((∀ k, has_items h (of_prop (items p)) k = false) →
     ∃ e, own_props result.2 result.1 = {[ key := VRef e ]}
          ∧ own_props result.2 (VRef e) = {[ "selected" := VBool true ]}).
Proof.
  intros key result. subst result.
  destruct (generateMarkings_absent p d h Hmd Hty)
    as (r & e & marks & h' & -> & Hr & He & Hr' & He' & Hall).
  fold key in Hr', He'. cbn [fst snd].
  rewrite (own_props_obj _ _ _ Hr'). split.
  - intros k. destruct (decide (k = key)) as [->|Hk].
    + rewrite lookup_insert_eq. split; [by right|by eexists].
    + rewrite lookup_insert_ne by done. specialize (Hall k).
      destruct (marks !! k) as [v|].
      * destruct Hall as [Hk' _]. split; [by left|by eexists].
      * split; [by intros [? ?]|]. intros [?|?]; congruence.
  - intros Hnone. exists e. split.
    + apply map_eq. intros k. destruct (decide (k = key)) as [->|Hk].
      * by rewrite lookup_insert_eq, lookup_singleton_eq.
      * rewrite lookup_insert_ne, lookup_singleton_ne by done.
        specialize (Hall k). destruct (marks !! k) as [v|]; [|done].
        destruct Hall as [Hk' _]. by rewrite Hnone in Hk'.
    + rewrite (own_props_obj _ _ _ He'). by rewrite Hnone.
Qed.

(** X7.  With [markedDates] provided but holding nothing (or a falsy value)
    for the selected day, the entry of the selected day in the result is
    exactly [{selected: true}], and every other key of the result is as in
    [markedDates]. *)
Theorem selected_day_without_entry p d h l
    (Hmd : markedDates p = Some l)
    (Hmiss : truthy (JS.get h (VRef l) (XDate_toString d)) = false) :
  let key := XDate_toString d in
  let result := generateMarkings p d h in
  own_props result.2 (JS.get result.2 result.1 key)
  = {[ "selected" := VBool true ]}
  ∧ ∀ k, k ≠ key → own_props result.2 result.1 !! k = own_props h (VRef l) !! k.
Proof.
  intros key result. subst result.
  rewrite (generateMarkings_provided p d h l Hmd). fold key. cbn [fst snd].
  set (e := fresh (dom h)). set (h1 := <[e := _]> h).
  set (r := fresh (dom h1)).
  assert (r ≠ e) as Hre.
  { intros Heq. apply (is_fresh (dom h1)). fold r. rewrite Heq.
    apply elem_of_dom. unfold h1. rewrite lookup_insert_eq. by eexists. }
  erewrite (get_obj _ r) by apply lookup_insert_eq.
  erewrite (own_props_obj _ r) by apply lookup_insert_eq.
  rewrite lookup_insert_eq. cbn [default from_option]. unfold id. split.
  - erewrite own_props_obj
      by (rewrite lookup_insert_ne by done; apply lookup_insert_eq).
    by rewrite (own_props_falsy _ _ Hmiss).
  - intros k Hk. by rewrite lookup_insert_ne.
Qed.

(** The loop gives every key it marks an object of its own, one that the
    heap [h0] it started from does not hold. *)
Lemma mark_key_distinct h0 items m h k :
  (h0 ⊆ h ∧ ∃ marks, h !! m = Some (Obj marks)
     ∧ (∀ k v, marks !! k = Some v →
               ∃ o, v = VRef o ∧ h0 !! o = None ∧ is_Some (h !! o))
     ∧ (∀ k1 k2 v, marks !! k1 = Some v → marks !! k2 = Some v → k1 = k2)) →
  h0 !! m = None →
  let h' := mark_key items m h k in
  h0 ⊆ h' ∧ ∃ marks, h' !! m = Some (Obj marks)
     ∧ (∀ k v, marks !! k = Some v →
               ∃ o, v = VRef o ∧ h0 !! o = None ∧ is_Some (h' !! o))
     ∧ (∀ k1 k2 v, marks !! k1 = Some v → marks !! k2 = Some v → k1 = k2).
Proof.
  intros (Hsub & marks & Hm & Hrefs & Hinj) Hm0.
  split; [by apply mark_key_extends|].
  unfold mark_key.
  destruct (_ && _); [|by exists marks]. cbn.
  set (o := fresh (dom h)).
  assert (h !! o = None) as Ho by apply not_elem_of_dom, is_fresh.
  assert (o ≠ m) as Hne by (intros ->; congruence).
  unfold JS.set. rewrite lookup_insert_ne, Hm by done.
  exists (<[k := VRef o]> marks). split; [by rewrite lookup_insert_eq|].
  split.
  - intros k' v. destruct (decide (k = k')) as [<-|Hk].
    + rewrite lookup_insert_eq. intros [= <-]. exists o. split; [done|].
      split; [by eapply lookup_weaken_None|].
      rewrite lookup_insert_ne, lookup_insert_eq by done. by eexists.
    + rewrite lookup_insert_ne by done. intros Hv.
      destruct (Hrefs _ _ Hv) as (o' & -> & Hfresh & Ho').
      exists o'. split; [done|]. split; [done|].
      destruct (decide (o' = m)) as [->|Hm'];
        [rewrite lookup_insert_eq; by eexists|].
      rewrite lookup_insert_ne by done.
      destruct (decide (o' = o)) as [->|Ho''];
        [rewrite lookup_insert_eq; by eexists|].
      by rewrite lookup_insert_ne.
  - intros k1 k2 v.
    destruct (decide (k = k1)) as [<-|Hk1], (decide (k = k2)) as [<-|Hk2];
      rewrite ?lookup_insert_eq, ?lookup_insert_ne by done; try done.
    + intros [= <-] Hv. destruct (Hrefs _ _ Hv) as (o' & [= <-] & _ & [? ?]).
      congruence.
    + intros Hv [= <-]. destruct (Hrefs _ _ Hv) as (o' & [= <-] & _ & [? ?]).
      congruence.
    + apply Hinj.
Qed.

Lemma foldl_mark_key_distinct h0 items m keys h :
  (h0 ⊆ h ∧ ∃ marks, h !! m = Some (Obj marks)
     ∧ (∀ k v, marks !! k = Some v →
               ∃ o, v = VRef o ∧ h0 !! o = None ∧ is_Some (h !! o))
     ∧ (∀ k1 k2 v, marks !! k1 = Some v → marks !! k2 = Some v → k1 = k2)) →
  h0 !! m = None →
  let h' := foldl (mark_key items m) h keys in
  h0 ⊆ h' ∧ ∃ marks, h' !! m = Some (Obj marks)
     ∧ (∀ k v, marks !! k = Some v →
               ∃ o, v = VRef o ∧ h0 !! o = None ∧ is_Some (h' !! o))
     ∧ (∀ k1 k2 v, marks !! k1 = Some v → marks !! k2 = Some v → k1 = k2).
Proof.
  intros Hinv Hm0. revert h Hinv.
  induction keys as [|k keys IH]; intros h Hinv; [done|].
  cbn [foldl]. apply IH. by apply mark_key_distinct.
Qed.

(** X8.  With [markedDates] absent, every entry of the result of
    [generateMarkings] is an object of its own: no two keys share an
    entry, and no entry is an object that existed before the call. *)
Theorem marked_entries_are_separate_objects p d h
    (Hmd : markedDates p = None) :
  let result := generateMarkings p d h in
  (∀ k1 k2 v,
     own_props result.2 result.1 !! k1 = Some v →
     own_props result.2 result.1 !! k2 = Some v → k1 = k2)
  ∧ (∀ k v, own_props result.2 result.1 !! k = Some v →
            ∃ o, v = VRef o ∧ h !! o = None ∧ is_Some (result.2 !! o)).
Proof.
  intros result. subst result. unfold generateMarkings. rewrite Hmd. cbn.
  set (m := fresh (dom h)). set (h1 := <[m := Obj ∅]> h).
  assert (h !! m = None) as Hm by apply not_elem_of_dom, is_fresh.
  set (keys := Object_keys h1 (of_prop (items p))).
  destruct (foldl_mark_key_distinct h (of_prop (items p)) m keys h1)
    as (Hsub & marks & Hmarks & Hrefs & Hinj); [|done|].
  { split; [by apply insert_subseteq|].
    exists ∅. split; [apply lookup_insert_eq|].
    split; intros *; by rewrite lookup_empty. }
  set (hm := foldl _ h1 keys) in *. rewrite Hmarks.
  set (e := fresh (dom hm)).
  assert (hm !! e = None) as He by apply not_elem_of_dom, is_fresh.
  set (entry := <["selected" := VBool true]> _).
  set (r := fresh (dom (<[e := Obj entry]> hm))).
  assert (<[e := Obj entry]> hm !! r = None) as Hr
    by apply not_elem_of_dom, is_fresh.
  apply lookup_insert_None in Hr as [Hr Her].
  rewrite lookup_insert_eq. set (key := XDate_toString d). split.
  - intros k1 k2 v.
    destruct (decide (key = k1)) as [<-|Hk1], (decide (key = k2)) as [<-|Hk2];
      rewrite ?lookup_insert_eq, ?lookup_insert_ne by done; try done.
    + intros [= <-] Hv. destruct (Hrefs _ _ Hv) as (o' & [= <-] & _ & [? ?]).
      congruence.
    + intros Hv [= <-]. destruct (Hrefs _ _ Hv) as (o' & [= <-] & _ & [? ?]).
      congruence.
    + apply Hinj.
  - intros k v. destruct (decide (key = k)) as [<-|Hk].
    + rewrite lookup_insert_eq. intros [= <-]. exists e.
      split; [done|]. split; [by eapply lookup_weaken_None|].
      rewrite lookup_insert_ne, lookup_insert_eq by done. by eexists.
    + rewrite lookup_insert_ne by done. intros Hv.
      destruct (Hrefs _ _ Hv) as (o & -> & Hfresh & [c Hc]).
      exists o. split; [done|]. split; [done|].
      rewrite !lookup_insert_ne by (intros <-; congruence). by eexists.
Qed.
End MoreMarkingsProperties.

(** * Further properties of the life cycle *)

Section MoreLifecycleProperties.

Import AgendaView.
Context `{DateLib}.

Ltac unfold_methods :=
  unfold exec, perform, componentWillMount, componentWillUnmount,
    componentDidUpdate, onLayout, onScrollPadLayout, onCalendarLayout,
    onVisibleMonthsChange, _chooseDayFromCalendar, expandCalendar,
    compactCalendar, chooseDay, enableCalendarScrolling, loadReservations,
    fireTimer, elapse, render, run_callback, setScrollPadPosition,
    initialScrollPadPosition, calendarOffset, setState, emit, defined,
    clearTimeout, setTimeout, when, throw, read, update,
    mbind, mret, M_bind, M_ret.

Ltac exec_step :=
  match goal with
  | |- context [if ?b then _ else _] => destruct b eqn:?
  | |- context [match ?x with Some _ => _ | None => _ end] => destruct x eqn:?
  | |- context [match ?x with Returned _ => _ | Thrown _ => _ end] => destruct x eqn:?
  | |- context [match ?x with SetCalendarIsReady => _ | _ => _ end] => destruct x eqn:?
  end.

Ltac symex := unfold_methods; cbn; repeat (exec_step; cbn).

Ltac open_world w :=
  let p := fresh "p" in
  let s := fresh "s" in
  destruct w as [p s ? ? ? ? ? ? ? ? ?]; destruct s as [? ? ? ? ?].

Ltac clock_cases :=
  repeat match goal with
  | Hc : (_ <=? _)%N = false |- _ => apply N.leb_gt in Hc
  | Hc : (_ <=? _)%N = true |- _ => apply N.leb_le in Hc
  | Hc : (_ <? _)%N = false |- _ => apply N.ltb_ge in Hc
  | Hc : (_ <? _)%N = true |- _ => apply N.ltb_lt in Hc
  end; try lia.

Lemma run_cons a script w : run (a :: script) w = run script (exec (perform a) w).
Proof. reflexivity. Qed.

Lemma perform_topDay a w : topDay (state (exec (perform a) w)) = topDay (state w).
Proof.
  open_world w.
  destruct a as [| |p'|prev| |height width| | |months|d| | |ms|]; by symex.
Qed.

(** X9.  [topDay] is set by the constructor and by nothing else: after any
    script of actions it is still the parse of the [selected] prop, or the
    date of the clock as the constructor read it for [topDay]. *)
Theorem topDay_never_changes (p : Props) (height width : Q) (h : heap)
    (t dt : N) (script : list Action) :
  topDay (state (run script (constructor p height width h t dt)))
  = default (XDate_now (t + dt)) (parseDate (selected p)).
Proof.
  change (default (XDate_now (t + dt)) (parseDate (selected p)))
    with (topDay (state (constructor p height width h t dt))).
  generalize (constructor p height width h t dt). intros w. revert w.
  induction script as [|a script IH]; intros w; [done|].
  by rewrite run_cons, IH, perform_topDay.
Qed.

(** X10.  [selectedDay] changes only when a day is chosen: [chooseDay] on a
    date sets it to the parsed date, [compactCalendar] sets it to the parse
    of itself, and every other action (and a choice that does not parse)
    leaves it as it is. *)
Theorem selectedDay_changes_only_by_choice (a : Action) (w : World) :
  selectedDay (state (exec (perform a) w))
  = match a with
    | ChooseDayFromCalendar d =>
        default (selectedDay (state w)) (parseDate d)
    | CompactCalendar =>
        default (selectedDay (state w))
          (parseDate (Some (ofXDate (selectedDay (state w)))))
    | _ => selectedDay (state w)
    end.
Proof.
  open_world w.
  destruct a as [| |p'|prev| |height width| | |months|d| | |ms|]; by symex.
Qed.

Lemma perform_ready a w :
  calendarIsReady (state w) = true →
  calendarIsReady (state (exec (perform a) w)) = true.
Proof.
  open_world w. cbn. intros ->.
  destruct a as [| |p'|prev| |height width| | |months|d| | |ms|]; by symex.
Qed.

(** X11.  Once [calendarIsReady] is true it stays true, whatever happens
    next. *)
Theorem calendarIsReady_is_kept (script : list Action) (w : World)
    (Hready : calendarIsReady (state w) = true) :
  calendarIsReady (state (run script w)) = true.
Proof.
  revert w Hready. induction script as [|a script IH]; intros w Hready; [done|].
  rewrite run_cons. by apply IH, perform_ready.
Qed.

(** X12.  When no timer is pending, [onScrollPadLayout] scrolls the pad to its
    initial position without animation and leaves [calendarIsReady] as it
    is; the next run of the host's timers sets it to true, with no other
    call and no timer left. *)
Theorem scroll_pad_layout_makes_ready (w : World) (Hquiet : timers w = []) :
  let w1 := exec onScrollPadLayout w in
  let w2 := exec fireTimer w1 in
  calendarIsReady (state w1) = calendarIsReady (state w)
  ∧ calendarIsReady (state w2) = true
  ∧ timers w2 = []
  ∧ new_effects w w2
    = [(clock w,
        ScrollPadScrollTo (Layout.initialScrollPadPosition (viewHeight w))
          false)].
Proof.
  open_world w. cbn in Hquiet. subst. unfold new_effects.
  split_and!.
  - by symex.
  - symex; try done; clock_cases.
  - symex; try done; clock_cases.
    all: rewrite filter_cons_False by (cbn; tauto); done.
  - symex; clock_cases; by rewrite drop_app_length.
Qed.

Lemma loadReservations_exec p w :
  exec (loadReservations p) w
  = if no_items (store w) p && negb (firstResevationLoad (state w))
    then (if loadItemsForMonth (props w)
          then with_trace
                 (trace w
                  ++ [(clock w,
                       LoadItemsForMonth
                         (Some (xdateToData (selectedDay (state w)))))])
                 (with_state (set_firstResevationLoad true (state w)) w)
          else with_state (set_firstResevationLoad true (state w)) w)
    else w.
Proof.
  unfold exec, loadReservations, setState, emit, update, when, mbind, M_bind,
    read, mret, M_ret. cbn.
  destruct (_ && _); [|done]. cbn.
  by destruct (loadItemsForMonth (props w)).
Qed.

Lemma loadReservations_again p w :
  exec (loadReservations p) (exec (loadReservations p) w)
  = exec (loadReservations p) w.
Proof.
  rewrite (loadReservations_exec p w).
  destruct (_ && _) eqn:Hc; [|by rewrite loadReservations_exec, Hc].
  destruct (loadItemsForMonth (props w));
    rewrite loadReservations_exec; cbn; by rewrite andb_false_r.
Qed.

Lemma loadReservations_props p w :
  props (exec (loadReservations p) w) = props w.
Proof.
  rewrite loadReservations_exec.
  destruct (_ && _); [|done]. by destruct (loadItemsForMonth (props w)).
Qed.

(** X13.  [loadReservations] acts once: run twice in a row it does what a
    single run does; one run makes at most one call; and it does nothing
    when [firstResevationLoad] is already set or when the items map has a
    key. *)
Theorem loadReservations_runs_once (p : Props) (w : World) :
  exec (loadReservations p) (exec (loadReservations p) w)
  = exec (loadReservations p) w
  ∧ length (new_effects w (exec (loadReservations p) w)) ≤ 1
  ∧ (firstResevationLoad (state w) = true →
     exec (loadReservations p) w = w)
  ∧ (no_items (store w) p = false → exec (loadReservations p) w = w).
Proof.
  split; [apply loadReservations_again|].
  unfold new_effects. rewrite loadReservations_exec. split_and!.
  - destruct (_ && _); [destruct (loadItemsForMonth (props w))|]; cbn;
      rewrite ?drop_app_length, ?drop_all; cbn; lia.
  - intros ->. by rewrite andb_false_r.
  - by intros ->.
Qed.

Lemma componentDidUpdate_same_items prev w :
  items prev = items (props w) →
  exec (componentDidUpdate prev) w = exec (loadReservations (props w)) w.
Proof.
  intros Hsame. unfold exec, componentDidUpdate, mbind, M_bind, read.
  cbn. by rewrite bool_decide_eq_false_2 by (by intros ?).
Qed.

Lemma repeated_updates prev n w :
  items prev = items (props w) →
  run (replicate n (ComponentDidUpdate prev))
    (exec (loadReservations (props w)) w)
  = exec (loadReservations (props w)) w.
Proof.
  intros Hsame. induction n as [|n IH]; [done|].
  cbn [replicate]. rewrite run_cons. cbn [perform].
  rewrite componentDidUpdate_same_items
    by (by rewrite loadReservations_props).
  by rewrite loadReservations_props, loadReservations_again.
Qed.

(** X14.  However often the component updates with the same items object,
    [loadItemsForMonth] is called at most once: the updates after the
    first change nothing. *)
Theorem unchanged_items_load_at_most_once (n : nat) (prev : Props)
    (w : World) (Hsame : items prev = items (props w)) :
  let w' := run (replicate n (ComponentDidUpdate prev)) w in
  length (new_effects w w') ≤ 1
  ∧ (0 < n → w' = exec (componentDidUpdate prev) w).
Proof.
  intros w'. subst w'. destruct n as [|n].
  - split; [|lia]. unfold new_effects. cbn. rewrite drop_all. cbn. lia.
  - cbn [replicate]. rewrite run_cons. cbn [perform].
    rewrite componentDidUpdate_same_items by done.
    rewrite repeated_updates by done. split; [|done].
    unfold new_effects. rewrite loadReservations_exec.
    destruct (_ && _); [destruct (loadItemsForMonth (props w))|]; cbn;
      rewrite ?drop_app_length, ?drop_all; cbn; lia.
Qed.

(** X15.  A change of the items object re-arms the load.  The update that sees
    the change only clears [firstResevationLoad]: whatever the items are,
    nothing else of the instance changes, so there is no call and no
    timer.  On the next update, if the items are still absent or empty, the
    month of the selected day is requested (when the callback is there) and
    the flag is set again. *)
Theorem items_change_rearms_load (prev : Props) (w : World)
    (Hchanged : items prev ≠ items (props w)) :
  let w1 := exec (componentDidUpdate prev) w in
  let w2 := exec (componentDidUpdate (props w)) w1 in
  w1 = with_state (set_firstResevationLoad false (state w)) w
  ∧ firstResevationLoad (state w1) = false
  ∧ trace w1 = trace w ∧ timers w1 = timers w
  ∧ (no_items (store w) (props w) = true →
     firstResevationLoad (state w2) = true
     ∧ new_effects w w2
       = if loadItemsForMonth (props w)
         then [(clock w,
                LoadItemsForMonth (Some (xdateToData (selectedDay (state w)))))]
         else []).
Proof.
  unfold new_effects. open_world w. cbn in *.
  unfold exec, componentDidUpdate, mbind, M_bind, read. cbn.
  rewrite bool_decide_eq_true_2 by done.
  rewrite bool_decide_eq_false_2 by (by intros ?).
  unfold loadReservations, setState, update, when, mbind, M_bind, read. cbn.
  split_and!; try done. intros Hempty. rewrite Hempty. cbn.
  destruct (loadItemsForMonth p); cbn; rewrite ?drop_app_length, ?drop_all; done.
Qed.

(** X16.  [chooseDay] on a date returns normally, selects the parsed date and
    makes its calls in a fixed order at one instant: the scroll pad goes to
    its initial position without animation, then [loadItemsForMonth], then
    [onDayPress], both with the data of the chosen day. *)
Theorem chooseDay_sequence (d : option DateArg) (day : XDate) (w : World)
    (Hday : parseDate d = Some day) :
  let w' := exec (chooseDay d) w in
  (chooseDay d w).1 = Returned tt
  ∧ selectedDay (state w') = day
  ∧ new_effects w w'
    = [(clock w,
        ScrollPadScrollTo (Layout.initialScrollPadPosition (viewHeight w))
          false)]
      ++ (if loadItemsForMonth (props w)
          then [(clock w, LoadItemsForMonth (Some (xdateToData day)))]
          else [])
      ++ (if onDayPress (props w)
          then [(clock w, OnDayPress (xdateToData day))]
          else []).
Proof.
  unfold new_effects. open_world w. unfold exec, chooseDay. rewrite Hday.
  split_and!; symex; rewrite <- ?app_assoc, ?drop_app_length; done.
Qed.

(** X17.  [chooseDay] on a value that does not parse throws a [TypeError]
    with the state and the log unchanged; if the calendar was expanded, the
    timer for [onCalendarToggled(false)] has been set all the same. *)
Theorem chooseDay_without_date (d : option DateArg) (w : World)
    (Hnone : parseDate d = None) :
  let w' := exec (chooseDay d) w in
  (chooseDay d w).1 = Thrown TypeError
  ∧ state w' = state w
  ∧ trace w' = trace w
  ∧ timers w'
    = timers w
      ++ (if calendarScrollable (state w)
          then [{| timerId := nextTimerId w; due := (clock w + 1000)%N;
                   callback := NotifyToggled false |}]
          else []).
Proof.
  open_world w. unfold exec, chooseDay. rewrite Hnone.
  split_and!; symex; by rewrite ?app_nil_r.
Qed.

(** X18.  [render] changes nothing of the instance: props, state, timers and
    log are as before, every object of the heap is as before, and only new
    objects are added.  What it hands to the children follows the state:
    the calendar scrolls exactly when [calendarScrollable] is set, the
    header is collapsed until [calendarIsReady], the scroll pad sits under
    the header exactly when the calendar is compact. *)
Theorem render_only_allocates (w : World) :
  let w' := exec render w in
  w' = with_store (store w') w
  ∧ store w ⊆ store w'
  ∧ ∃ r, (render w).1 = Returned r
         ∧ r_calendarScrollable r = calendarScrollable (state w)
         ∧ r_headerCollapsed r = negb (calendarIsReady (state w))
         ∧ r_scrollPadTop r
           = (if calendarScrollable (state w) then 0%Q
              else Layout.HEADER_HEIGHT)
         ∧ r_markedDates r
           = (generateMarkings (props w) (selectedDay (state w)) (store w)).1.
Proof.
  split_and!.
  - by destruct w.
  - unfold exec, render. cbn. apply generateMarkings_extends.
  - eexists. split; [reflexivity|]. cbn.
    unfold scrollPadPosition, shouldAllowDragging.
    by destruct (calendarScrollable (state w)).
Qed.

(** X19.  Mounting a new instance marks it mounted and, when the items are
    absent or empty, sets [firstResevationLoad] and asks for the month of
    the initially selected day (if [loadItemsForMonth] is there); it sets
    no timer and makes no other call. *)
Theorem mount_requests_selected_month (p : Props) (height width : Q)
    (h : heap) (t dt : N) :
  let w := exec componentWillMount (constructor p height width h t dt) in
  _isMounted w = true
  ∧ firstResevationLoad (state w) = no_items h p
  ∧ timers w = []
  ∧ trace w
    = if no_items h p && loadItemsForMonth p
      then [((t + dt)%N, LoadItemsForMonth
                  (Some (xdateToData
                           (default (XDate_now t) (parseDate (selected p))))))]
      else [].
Proof.
  unfold exec, componentWillMount, loadReservations, setState, update, when,
    emit, mbind, M_bind, read, update. cbn.
  rewrite andb_true_r.
  destruct (no_items h p); cbn; [|done].
  by destruct (loadItemsForMonth p).
Qed.

Lemma onVisibleMonthsChange_exec months w :
  bool_decide (is_Some (items (props w)))
  && negb (firstResevationLoad (state w)) = true →
  let w' := exec (onVisibleMonthsChange months) w in
  props w' = props w ∧ state w' = state w ∧ clock w' = clock w
  ∧ nextTimerId w' = S (nextTimerId w)
  ∧ scrollTimeout w' = Some (nextTimerId w)
  ∧ timers w'
    = match scrollTimeout w with
      | Some i => filter (λ t, timerId t ≠ i) (timers w)
      | None => timers w
      end
      ++ [{| timerId := nextTimerId w; due := (clock w + 200)%N;
             callback := LoadVisibleMonth months |}].
Proof.
  intros Hcond. unfold exec, onVisibleMonthsChange, mbind, M_bind, read, when.
  cbn. rewrite Hcond. open_world w. by symex.
Qed.

Lemma no_month_loads (ts : list Timer) :
  Forall (λ u, is_month_load u = false) ts →
  filter (λ t, is_month_load t = true) ts = [].
Proof.
  induction 1 as [|u l Hu _ IH]; [done|].
  by rewrite filter_cons_False by congruence.
Qed.

(** X20.  Changes of the visible months are debounced.  In a reachable world
    with items present and no first load in flight, two calls of
    [onVisibleMonthsChange], any time apart, leave one pending month load:
    the second one, due 200 ms after the second call; the timer of the
    first call is gone. *)
Theorem month_changes_are_debounced (w : World) (Hw : reachable w)
    (Hitems : is_Some (items (props w)))
    (Hfirst : firstResevationLoad (state w) = false)
    (m1 m2 : list DateData) (dt : N) :
  let w1 := exec (onVisibleMonthsChange m1) w in
  let w2 := exec (onVisibleMonthsChange m2) (exec (elapse dt) w1) in
  pending_month_loads w2
  = [{| timerId := S (nextTimerId w); due := (clock w + dt + 200)%N;
        callback := LoadVisibleMonth m2 |}]
  ∧ Forall (λ t, timerId t ≠ nextTimerId w) (timers w2).
Proof.
  intros w1 w2.
  assert (bool_decide (is_Some (items (props w)))
          && negb (firstResevationLoad (state w)) = true) as Hcond
    by (by rewrite bool_decide_eq_true_2, Hfirst).
  destruct (onVisibleMonthsChange_exec m1 w Hcond)
    as (Hp1 & Hs1 & Hc1 & Hn1 & Hst1 & Ht1). fold w1 in Hp1, Hs1, Hc1, Hn1, Hst1, Ht1.
  set (w1' := exec (elapse dt) w1).
  assert (reachable w1') as Hw1'
    by apply (reachable_perform (Elapse dt)),
             (reachable_perform (OnVisibleMonthsChange m1)), Hw.
  pose proof (reachable_timers_inv _ Hw1') as Hinv.
  pose proof (timers_ok_cleared _ _ _ Hinv) as Hcleared.
  assert (props w1' = props w1 ∧ state w1' = state w1
          ∧ clock w1' = (clock w1 + dt)%N ∧ nextTimerId w1' = nextTimerId w1
          ∧ scrollTimeout w1' = scrollTimeout w1 ∧ timers w1' = timers w1)
    as (Hp & Hs & Hc & Hn & Hst & Ht) by (by destruct w1).
  destruct (onVisibleMonthsChange_exec m2 w1') as (_ & _ & _ & _ & _ & Ht2).
  { by rewrite Hp, Hs, Hp1, Hs1. }
  change (exec (onVisibleMonthsChange m2) w1') with w2 in Ht2.
  rewrite Hst, Hst1, Hn, Hn1, Hc, Hc1 in Ht2.
  rewrite Hst, Hst1 in Hcleared.
  unfold pending_month_loads. rewrite Ht2. split.
  - rewrite filter_app, (no_month_loads _ Hcleared).
    by rewrite filter_cons_True, filter_nil by done.
  - apply Forall_app. split.
    + apply Forall_forall. by intros t [Hne _]%list_elem_of_filter.
    + apply Forall_singleton. cbn. lia.
Qed.

(** Evaluation of a script on an opened world: the methods are unfolded
    by value, and the tests on the clock and on timer ids, which do not
    compute on variables, are settled by arithmetic. *)
Ltac evaluate :=
  cbv [run foldl exec perform componentWillMount componentWillUnmount
       componentDidUpdate onLayout onScrollPadLayout onCalendarLayout
       onVisibleMonthsChange _chooseDayFromCalendar expandCalendar
       compactCalendar chooseDay enableCalendarScrolling loadReservations
       fireTimer elapse run_callback setScrollPadPosition
       initialScrollPadPosition calendarOffset setState emit defined
       clearTimeout setTimeout when throw read update mbind mret M_bind M_ret
       with_props with_state with_view with_scrollTimeout with_isMounted
       with_store with_clock with_timers with_trace
       set_calendarIsReady set_calendarScrollable set_firstResevationLoad
       set_selectedDay
       props state viewHeight viewWidth scrollTimeout _isMounted store clock
       nextTimerId timers trace timerId due callback
       calendarIsReady calendarScrollable firstResevationLoad selectedDay
       topDay loadItemsForMonth onCalendarToggled onDayPress items
       next_due fst snd negb andb id].

Ltac resolve_tests :=
  repeat first
    [ progress cbn [app]
    | rewrite filter_nil
    | rewrite filter_cons_True by (cbn; lia)
    | rewrite filter_cons_False by (cbn; lia)
    | match goal with
      | |- context [(?a <=? ?b)%N] =>
          first [ rewrite (proj2 (N.leb_le a b)) by lia
                | rewrite (proj2 (N.leb_gt a b)) by lia ]
      | |- context [(?a <? ?b)%N] =>
          first [ rewrite (proj2 (N.ltb_lt a b)) by lia
                | rewrite (proj2 (N.ltb_ge a b)) by lia ]
      end ].

(** X21.  Compacting does not cancel an expansion under way.  After
    [expandCalendar], a pause and [compactCalendar], the calendar is
    compact and both timers are pending: the scroll of the expansion and
    the notification of the compaction.  When they have all run, the
    calendar is still compact and [onCalendarToggled] has been called with
    both [true] and [false]: [true] first if the scroll ran within 500 ms
    of the compaction, [false] first otherwise. *)
Theorem compacting_keeps_expansion_timers (w : World) (day : XDate)
    (gap wait rest : N)
    (Hquiet : timers w = [])
    (Hparse : parseDate (Some (ofXDate (selectedDay (state w)))) = Some day)
    (Hprop : onCalendarToggled (props w) = true)
    (Hfirst : (500 <= gap + wait)%N)
    (Hrest : (500 <= rest)%N) (Hboth : (1000 <= wait + rest)%N) :
  let w1 := run [ExpandCalendar; Elapse gap; CompactCalendar] w in
  let w2 := run [Elapse wait; FireTimer; Elapse rest; FireTimer; FireTimer] w1 in
  let now := (clock w + gap + wait + rest)%N in
  calendarScrollable (state w1) = false
  ∧ timers w1
    = [{| timerId := nextTimerId w; due := (clock w + 500)%N;
          callback := ScrollCalendarToSelected |};
       {| timerId := S (nextTimerId w); due := (clock w + gap + 1000)%N;
          callback := NotifyToggled false |}]
  ∧ calendarScrollable (state w2) = false
  ∧ timers w2 = []
  ∧ filter (λ te, calls PropOnCalendarToggled te.2 = true) (new_effects w w2)
    = if (wait <? 500)%N
      then [(now, OnCalendarToggled true); (now, OnCalendarToggled false)]
      else [(now, OnCalendarToggled false); (now, OnCalendarToggled true)].
Proof.
  unfold new_effects. open_world w. cbn in Hquiet, Hparse, Hprop. subst.
  match goal with p : Props |- _ => destruct p as [? ? ? load ? press] end.
  cbn in Hprop. subst.
  assert ((wait <? 500)%N = true ∨ (wait <? 500)%N = false) as [Hw|Hw]
    by (destruct (wait <? 500)%N; auto);
  rewrite Hw; [apply N.ltb_lt in Hw|apply N.ltb_ge in Hw].
  all: destruct load, press.
  all: split_and!.
  all: repeat (evaluate; rewrite ?Hparse; resolve_tests).
  all: try reflexivity.
  all: rewrite <- !app_assoc, drop_app_length; cbn [app].
  all: by vm_compute.
Qed.
End MoreLifecycleProperties.

(** * Properties of the style sheet *)

Section StyleProperties.

Import Style.
Context `{StyleLib}.

(** X22.  A style named in the theme's sheet for the agenda replaces the
    built-in style of that name as a whole (its properties are not merged);
    a name the sheet does not mention keeps the style built from the
    theme's constants. *)
Theorem theme_sheet_replaces_styles (theme : Theme) (name : string) :
  styleConstructor (Some theme) !! name
  = match default ∅ (sheets theme !! STYLESHEET_ID) !! name with
    | Some s => Some s
    | None =>
        styleConstructor
          (Some {| constants := constants theme; sheets := ∅ |}) !! name
    end.
Proof.
  unfold styleConstructor. cbv [from_option id constants sheets].
  destruct (platformStyles _) as [knob weekdays].
  rewrite lookup_empty, (left_id_L ∅ (∪)), lookup_union.
  destruct (_ !! name) as [s|]; [|by rewrite (left_id None _)].
  by destruct (_ !! name).
Qed.

(** X23.  The sheet always has the six built-in styles, and any other name
    exactly when the theme's sheet for the agenda defines it; with the
    theme omitted these six are all there is. *)
Theorem style_names (theme : option Theme) (name : string) :
  is_Some (styleConstructor theme !! name)
  ↔ name ∈ built_in
    ∨ is_Some (default ∅ (sheets (default {| constants := ∅; sheets := ∅ |} theme)
                            !! STYLESHEET_ID) !! name).
Proof.
  unfold styleConstructor.
  destruct (platformStyles _) as [knob weekdays].
  rewrite lookup_union_is_Some.
  assert (is_Some (({[ "knob" := knob; "weekdays" := weekdays;
                       "header" := _; "calendar" := _; "weekday" := _;
                       "reservations" := _ ]} : sheet) !! name)
          ↔ name ∈ built_in) as ->; [|tauto].
  rewrite <- elem_of_dom, !dom_insert_L, dom_singleton_L.
  unfold built_in. rewrite !elem_of_union, !elem_of_singleton.
  rewrite !elem_of_cons, elem_of_nil. tauto.
Qed.

(** X25.  A constant of the theme wins over the default of the same name:
    unless the theme overrides the [weekday] style, its colour is the
    theme's [textSectionTitleColor] when the theme has one and the default
    one otherwise; its width is 32 either way. *)
Theorem theme_constants_win (theme : Theme)
    (Hown : default ∅ (sheets theme !! STYLESHEET_ID) !! "weekday" = None) :
  ∃ s, styleConstructor (Some theme) !! "weekday" = Some s
       ∧ s !! "color"
         = Some (match constants theme !! "textSectionTitleColor" with
                 | Some v => v
                 | None => read_prop defaultStyle "textSectionTitleColor"
                 end)
       ∧ s !! "width" = Some (PNum 32).
Proof.
  unfold styleConstructor in *. cbv [from_option id constants sheets] in *.
  destruct (platformStyles _) as [knob weekdays].
  eexists. split; [|split].
  - rewrite lookup_union_r by exact Hown. reflexivity.
  - rewrite lookup_insert_ne, lookup_insert_ne, lookup_insert_eq by done.
    f_equal. unfold read_prop. rewrite lookup_union.
    destruct (constants theme); cbn.
    by destruct (_ !! "textSectionTitleColor"), (_ !! "textSectionTitleColor").
  - reflexivity.
Qed.
End StyleProperties.

(** * The further properties on the sample inputs *)

Section MoreExamples.

Import Layout AgendaView Style.

Lemma resting_position_is_compact_witness :
  (HEADER_HEIGHT < 800)%Q
  ∧ (interpolate (weekdaysOpacity 800) (Layout.initialScrollPadPosition 800)
     == 1)%Q.
Proof.
  assert (HEADER_HEIGHT < 800)%Q as Htall by reflexivity.
  split; [exact Htall|].
  exact (proj1 (proj2 (resting_position_is_compact 800 Htall))).
Defined.

Lemma sample_items_typed : items_typed sample_heap (items sample_props).
Proof.
  eexists. split; [reflexivity|].
  refine (bool_decide_unpack _ _). vm_compute. exact I.
Qed.

Lemma marked_keys_domain_witness :
  let result :=
    generateMarkings sample_props {| year := 2026; month := 11; day := 1 |}
      sample_heap in
  markedDates sample_props = None
  ∧ items_typed sample_heap (items sample_props)
  ∧ ¬ is_Some (own_props result.2 result.1 !! "2026-11-02").
Proof.
  split; [reflexivity|]. split; [exact sample_items_typed|].
  destruct (marked_keys_domain (H := sample_dates) sample_props
              {| year := 2026; month := 11; day := 1 |} sample_heap
              eq_refl sample_items_typed) as [Hdom _].
  intros [Hitems|Hkey]%Hdom; vm_compute in *; discriminate.
Defined.

Lemma selected_day_without_entry_witness :
  let d := {| year := 2026; month := 11; day := 1 |} in
  let result := generateMarkings sample_props_marked d sample_heap in
  markedDates sample_props_marked = Some 4%positive
  ∧ truthy (JS.get sample_heap (VRef 4%positive) (format_ymd d)) = false
  ∧ own_props result.2 (JS.get result.2 result.1 (format_ymd d))
    = {[ "selected" := VBool true ]}.
Proof.
  split; [reflexivity|]. split; [reflexivity|].
  exact (proj1 (selected_day_without_entry (H := sample_dates)
                  sample_props_marked
                  {| year := 2026; month := 11; day := 1 |} sample_heap
                  4%positive eq_refl eq_refl)).
Defined.

Lemma marked_entries_are_separate_objects_witness :
  let result :=
    generateMarkings sample_props {| year := 2026; month := 11; day := 2 |}
      sample_heap in
  markedDates sample_props = None
  ∧ ∀ k1 k2 v,
      own_props result.2 result.1 !! k1 = Some v →
      own_props result.2 result.1 !! k2 = Some v → k1 = k2.
Proof.
  split; [reflexivity|].
  exact (proj1 (marked_entries_are_separate_objects (H := sample_dates)
                  sample_props {| year := 2026; month := 11; day := 2 |}
                  sample_heap eq_refl)).
Defined.

Lemma calendarIsReady_is_kept_witness :
  let w := run [OnScrollPadLayout; FireTimer] sample_world in
  calendarIsReady (state w) = true
  ∧ calendarIsReady (state (run [ExpandCalendar; CompactCalendar] w)) = true.
Proof.
  intros w.
  assert (calendarIsReady (state w) = true) as Hready by (by vm_compute).
  split; [exact Hready|].
  exact (calendarIsReady_is_kept (H := sample_dates)
           [ExpandCalendar; CompactCalendar] w Hready).
Defined.

Lemma scroll_pad_layout_makes_ready_witness :
  timers sample_world = []
  ∧ calendarIsReady
      (state (exec fireTimer (exec onScrollPadLayout sample_world))) = true.
Proof.
  split; [reflexivity|].
  exact (proj1 (proj2 (scroll_pad_layout_makes_ready (H := sample_dates)
                         sample_world eq_refl))).
Defined.

Lemma unchanged_items_load_at_most_once_witness :
  items sample_props_empty = items (props sample_world_empty)
  ∧ length (new_effects sample_world_empty
              (run (replicate 3 (ComponentDidUpdate sample_props_empty))
                 sample_world_empty)) ≤ 1.
Proof.
  split; [reflexivity|].
  exact (proj1 (unchanged_items_load_at_most_once (H := sample_dates) 3
                  sample_props_empty sample_world_empty eq_refl)).
Defined.

Lemma items_change_rearms_load_witness :
  let w1 := exec (componentDidUpdate sample_props) sample_world_empty in
  let w2 := exec (componentDidUpdate (props sample_world_empty)) w1 in
  items sample_props ≠ items (props sample_world_empty)
  ∧ firstResevationLoad (state w1) = false
  ∧ trace w1 = []
  ∧ firstResevationLoad (state w2) = true
  ∧ new_effects sample_world_empty w2
    = [(0%N, LoadItemsForMonth (Some (of_epoch_ms 0)))].
Proof.
  intros w1 w2.
  assert (items sample_props ≠ items (props sample_world_empty)) as Hchanged
    by discriminate.
  split; [exact Hchanged|].
  destruct (items_change_rearms_load (H := sample_dates) sample_props
              sample_world_empty Hchanged)
    as (_ & Hflag & Htrace & _ & Hnext).
  split; [exact Hflag|]. split; [exact Htrace|]. exact (Hnext eq_refl).
Defined.

Lemma chooseDay_sequence_witness :
  let d := {| year := 2026; month := 11; day := 3 |} in
  sample_parseDate (Some (ArgData d)) = Some d
  ∧ selectedDay (state (exec (chooseDay (Some (ArgData d))) sample_world)) = d.
Proof.
  split; [reflexivity|].
  exact (proj1 (proj2 (chooseDay_sequence (H := sample_dates)
                         (Some (ArgData {| year := 2026; month := 11; day := 3 |}))
                         {| year := 2026; month := 11; day := 3 |}
                         sample_world eq_refl))).
Defined.

Lemma chooseDay_without_date_witness :
  sample_parseDate None = None
  ∧ (chooseDay None (exec expandCalendar sample_world)).1 = Thrown TypeError
  ∧ state (exec (chooseDay None) (exec expandCalendar sample_world))
    = state (exec expandCalendar sample_world).
Proof.
  split; [reflexivity|].
  destruct (chooseDay_without_date (H := sample_dates) None
              (exec expandCalendar sample_world) eq_refl)
    as (Hthrown & Hstate & _).
  split; [exact Hthrown|exact Hstate].
Defined.

Lemma month_changes_are_debounced_witness :
  let m1 := [{| year := 2026; month := 11; day := 1 |}] in
  let m2 := [{| year := 2026; month := 12; day := 1 |}] in
  reachable sample_world
  ∧ is_Some (items (props sample_world))
  ∧ firstResevationLoad (state sample_world) = false
  ∧ pending_month_loads
      (exec (onVisibleMonthsChange m2)
         (exec (elapse 100) (exec (onVisibleMonthsChange m1) sample_world)))
    = [{| timerId := 1; due := 300%N; callback := LoadVisibleMonth m2 |}].
Proof.
  intros m1 m2.
  assert (reachable sample_world) as Hw by apply reachable_constructor.
  assert (is_Some (items (props sample_world))) as Hitems by (by eexists).
  split; [exact Hw|]. split; [exact Hitems|]. split; [reflexivity|].
  exact (proj1 (month_changes_are_debounced (H := sample_dates) sample_world
                  Hw Hitems eq_refl m1 m2 100%N)).
Defined.

Lemma compacting_keeps_expansion_timers_witness :
  timers sample_world = []
  ∧ sample_parseDate (Some (ArgXDate (selectedDay (state sample_world))))
    = Some (of_epoch_ms 0)
  ∧ onCalendarToggled (props sample_world) = true
  ∧ (500 <= 0 + 500)%N ∧ (500 <= 500)%N ∧ (1000 <= 500 + 500)%N
  ∧ timers (run [Elapse 500; FireTimer; Elapse 500; FireTimer; FireTimer]
              (run [ExpandCalendar; Elapse 0; CompactCalendar] sample_world))
    = [].
Proof.
  assert (500 <= 0 + 500)%N as H1 by lia.
  assert (500 <= 500)%N as H2 by lia.
  assert (1000 <= 500 + 500)%N as H3 by lia.
  split; [reflexivity|]. split; [reflexivity|]. split; [reflexivity|].
  split; [exact H1|]. split; [exact H2|]. split; [exact H3|].
  destruct (compacting_keeps_expansion_timers (H := sample_dates) sample_world
              (of_epoch_ms 0) 0%N 500%N 500%N eq_refl eq_refl eq_refl H1 H2 H3)
    as (_ & _ & _ & Hnone & _).
  exact Hnone.
Defined.

Lemma theme_constants_win_witness :
  default ∅ (sheets sample_theme_plain !! STYLESHEET_ID) !! "weekday" = None
  ∧ ∃ s, styleConstructor (Some sample_theme_plain) !! "weekday" = Some s
         ∧ s !! "color" = Some (PStr "red").
Proof.
  assert (default ∅ (sheets sample_theme_plain !! STYLESHEET_ID) !! "weekday"
          = None) as Hown by reflexivity.
  split; [exact Hown|].
  destruct (theme_constants_win (H := sample_styles) sample_theme_plain Hown)
    as (s & Hs & Hcolor & _).
  exists s. split; [exact Hs|exact Hcolor].
Defined.

End MoreExamples.
